(** * Orc8rBase: the workload reconciler of the Magma orc8r charm library

    A shallow embedding of [lib/charms/magma_orc8r_libs/v0/orc8r_base.py].
    The library is an event handler over the operator framework: every
    method of [Orc8rBase] reads or commands the host (the unit, its workload
    container, its relations).  The host is modelled as an explicit [World];
    the methods are computations in a small monad that threads the world,
    records every call made into the framework, and can raise the Python
    exceptions the source catches or lets through. *)

From stdpp Require Import gmap strings list fin_maps.

Open Scope string_scope.
Open Scope list_scope.

(** ** Data of the framework, as the library uses it *)

(** [ops.pebble.Service], restricted to the fields the library fills in. *)
Record Service := mkService {
  override : string;
  summary : string;
  startup : string;
  command : string;
  environment : gmap string string
}.

(** [ops.pebble.Layer]. *)
Record Layer := mkLayer {
  layer_summary : string;
  layer_description : string;
  services : gmap string Service
}.

#[global] Instance Service_eq_dec : EqDecision Service.
Proof. solve_decision. Defined.

#[global] Instance Layer_eq_dec : EqDecision Layer.
Proof. solve_decision. Defined.

(** [ops.model.StatusBase] and its four subclasses used here; [UnknownStatus]
    is the status of a unit nobody has set yet. *)
Inductive Status :=
| UnknownStatus
| ActiveStatus
| MaintenanceStatus (msg : string)
| WaitingStatus (msg : string)
| BlockedStatus (msg : string).

#[global] Instance Status_eq_dec : EqDecision Status.
Proof. solve_decision. Defined.

(** [ops.model.Relation].  [units] lists the counterpart units in the order
    in which iterating over [rel.units] yields them; [data] holds the bags
    of those units.  The bag [rel.data[self.charm.unit]] of the unit itself
    is [own_data]: the unit is never a member of [rel.units]. *)
Record Relation := mkRelation {
  units : list string;
  data : gmap string (gmap string string);
  own_data : gmap string string
}.

(** The layers Pebble holds for the workload container, each under its
    label, in the order in which Pebble takes them when it renders the
    plan. *)
Definition Layers : Type := list (string * gmap string Service).

(** The services of the plan Pebble renders: the layers are taken in order
    and an entry of a later layer replaces the entry of the same name of an
    earlier one.  This is how an entry with [override: replace] is rendered,
    which is what every entry the library builds carries. *)
Fixpoint render (layers : Layers) : gmap string Service :=
  match layers with
  | [] => ∅
  | layer :: later => render later ∪ layer.2
  end.

(** Combining into the layer that has the label, where it stands: the new
    entries replace the entries of the same name of that layer (they carry
    [override: replace], as all entries built here do), its other entries
    stay, and so do the other layers.  [None] when no layer has the label. *)
Fixpoint combine_layer (label : string) (added : gmap string Service)
    (layers : Layers) : option Layers :=
  match layers with
  | [] => None
  | layer :: later =>
      if decide (layer.1 = label)
      then Some ((label, added ∪ layer.2) :: later)
      else cons layer <$> combine_layer label added later
  end.

(** A layer under a new label, put at a given place among the others. *)
Definition insert_layer (label : string) (added : gmap string Service)
    (position : nat) (layers : Layers) : Layers :=
  take position layers ++ (label, added) :: drop position layers.

(** The host, as seen from one unit.  Relation objects are shared between
    everything that refers to them, so they live in a store indexed by
    relation id; [model_relations] hands out ids.  Where a layer under a new
    label goes is the host's affair (Pebble appends it, the testing harness
    of the framework renders the layers in the order of their labels), so
    the world says it: [new_layer_position]. *)
Record World := mkWorld {
  leader : bool;                           (* unit.is_leader() *)
  connectable : bool;                      (* container.can_connect() *)
  layers : Layers;                         (* the layers of the container *)
  new_layer_position : nat;                (* the place of a new label *)
  model_relations : gmap string (list nat);(* model.relations[name] *)
  relation : nat -> Relation;              (* the relation objects *)
  status : Status                          (* unit.status *)
}.

(** [container.get_plan().services]. *)
Definition plan (w : World) : gmap string Service := render (layers w).

(** The relation [model.get_relation(name)] returns, for the endpoints on
    which it returns one: those that hold exactly one relation. *)
Definition model_get_relation (w : World) : gmap string nat :=
  omap (fun relations =>
          match relations with
          | [id] => Some id
          | _ => None
          end)
       (model_relations w).

Definition with_status (s : Status) (w : World) : World :=
  mkWorld (leader w) (connectable w) (layers w) (new_layer_position w)
          (model_relations w) (relation w) s.

Definition with_layers (l : Layers) (w : World) : World :=
  mkWorld (leader w) (connectable w) l (new_layer_position w)
          (model_relations w) (relation w) (status w).

Definition with_relation (id : nat) (r : Relation) (w : World) : World :=
  mkWorld (leader w) (connectable w) (layers w) (new_layer_position w)
          (model_relations w)
          (fun j => if decide (j = id) then r else relation w j) (status w).

(** Every call into the framework, in the order in which it is made. *)
Inductive Effect :=
| EGetRelation (name : string)
| EReadData (rel : nat) (unit key : string)
| EIsLeader
| EListRelations (name : string)
| ECanConnect
| EGetPlan
| EGetService (name : string)
| ESetStatus (s : Status)
| EDefer
| EAddLayer (label : string) (layer : Layer) (combine : bool)
| ERestart (name : string)
| ELogInfo (msg : string)
| EUpdateData (rel : nat) (key value : string).

(** The calls that change something on the host or on the event, as opposed
    to the ones that only observe. *)
Definition is_command (e : Effect) : bool :=
  match e with
  | ESetStatus _ | EDefer | EAddLayer _ _ _ | ERestart _
  | ELogInfo _ | EUpdateData _ _ _ => true
  | _ => false
  end.

Definition commands (log : list Effect) : list Effect :=
  List.filter is_command log.

Definition is_add_layer (e : Effect) : bool :=
  match e with EAddLayer _ _ _ => true | _ => false end.

Definition is_restart (e : Effect) : bool :=
  match e with ERestart _ => true | _ => false end.

Definition is_update_data (e : Effect) : bool :=
  match e with EUpdateData _ _ _ => true | _ => false end.

Definition is_read_data (e : Effect) : bool :=
  match e with EReadData _ _ _ => true | _ => false end.

Definition is_defer (e : Effect) : bool :=
  match e with EDefer => true | _ => false end.

Definition count (p : Effect -> bool) (log : list Effect) : nat :=
  length (List.filter p log).

(** ** The monad: world, call log, Python exceptions *)

(** The exceptions the library catches, and the two others the calls it
    makes can raise: [ops.model.TooManyRelatedAppsError], a [ModelError],
    and [ops.pebble.APIError]. *)
Inductive exn :=
| AttributeError
| KeyError
| StopIteration
| ModelError
| TooManyRelatedAppsError
| APIError.

#[global] Instance exn_eq_dec : EqDecision exn.
Proof. solve_decision. Defined.

(** [isinstance(e, c)] on these classes. *)
Definition is_instance (e c : exn) : bool :=
  bool_decide (e = c)
  || (bool_decide (e = TooManyRelatedAppsError) && bool_decide (c = ModelError)).

Inductive outcome (A : Type) :=
| Return (a : A)
| Raise (e : exn).
Arguments Return {A} a.
Arguments Raise {A} e.

Definition M (A : Type) : Type := World -> outcome A * World * list Effect.

Definition ret {A} (a : A) : M A := fun w => (Return a, w, []).

Definition bind {A B} (m : M A) (k : A -> M B) : M B :=
  fun w =>
    match m w with
    | (Return a, w1, l1) =>
        match k a w1 with (o, w2, l2) => (o, w2, l1 ++ l2) end
    | (Raise e, w1, l1) => (Raise e, w1, l1)
    end.

Definition raise {A} (e : exn) : M A := fun w => (Raise e, w, []).

(** [try: body except (caught...): handler]. *)
Definition try_except {A} (body : M A) (caught : list exn) (handler : M A)
  : M A :=
  fun w =>
    match body w with
    | (Return a, w1, l1) => (Return a, w1, l1)
    | (Raise e, w1, l1) =>
        if existsb (is_instance e) caught
        then match handler w1 with (o, w2, l2) => (o, w2, l1 ++ l2) end
        else (Raise e, w1, l1)
    end.

Definition observe {A} (e : Effect) (f : World -> A) : M A :=
  fun w => (Return (f w), w, [e]).

Definition perform (e : Effect) (f : World -> World) : M unit :=
  fun w => (Return tt, f w, [e]).

Declare Scope py_scope.
Delimit Scope py_scope with py.
Notation "x <- m ;; k" := (bind m (fun x => k))
  (at level 100, m at next level, k at level 200, right associativity)
  : py_scope.
Notation "m ;; k" := (bind m (fun _ => k))
  (at level 100, k at level 200, right associativity) : py_scope.
Open Scope py_scope.

(** A list comprehension [[x for x in l if keep(x)]]. *)
Fixpoint comprehension {A} (keep : A -> M bool) (l : list A) : M (list A) :=
  match l with
  | [] => ret []
  | x :: rest =>
      b <- keep x ;;
      kept <- comprehension keep rest ;;
      ret (if b then x :: kept else kept)
  end.

(** A [for] loop over a list. *)
Fixpoint for_each {A} (body : A -> M unit) (l : list A) : M unit :=
  match l with
  | [] => ret tt
  | x :: rest => body x ;; for_each body rest
  end.

(** [sep.join(l)]. *)
Fixpoint join (sep : string) (l : list string) : string :=
  match l with
  | [] => ""
  | x :: rest =>
      match rest with
      | [] => x
      | _ => x +:+ sep +:+ join sep rest
      end
  end.

(** [str(b)] for a Python [bool]. *)
Definition str_of_bool (b : bool) : string := if b then "True" else "False".

(** [d.update(other)]: the entries of [other] win. *)
Definition update (d other : gmap string string) : gmap string string :=
  other ∪ d.

(** ** The framework's interface *)

(** What [model.get_relation(name)] gives on a host: [model.relations[name]]
    raises [KeyError] for an endpoint the charm does not declare; on a
    declared endpoint the call returns [None] when no relation is
    established, the relation when there is exactly one, and raises
    [TooManyRelatedAppsError] when there are more. *)
Definition get_relation_outcome (w : World) (name : string)
  : outcome (option nat) :=
  match model_relations w !! name with
  | None => Raise KeyError
  | Some [] => Return None
  | Some [id] => Return (Some id)
  | Some (_ :: _ :: _) => Raise TooManyRelatedAppsError
  end.

(** [model.get_relation(name)]. *)
Definition get_relation (name : string) : M (option nat) :=
  fun w => (get_relation_outcome w name, w, [EGetRelation name]).

(** [rel.units]; on [None] the attribute access raises. *)
Definition rel_units (rel : option nat) : M (list string) :=
  match rel with
  | None => raise AttributeError
  | Some id => fun w => (Return (units (relation w id)), w, [])
  end.

(** [next(iter(s))]. *)
Definition next_iter {A} (s : list A) : M A :=
  match s with
  | [] => raise StopIteration
  | x :: _ => ret x
  end.

(** [rel.data[unit][key]] for a counterpart unit. *)
Definition rel_data_get (rel : option nat) (unit key : string) : M string :=
  match rel with
  | None => raise AttributeError
  | Some id =>
      fun w =>
        (match data (relation w id) !! unit ≫= (fun bag => bag !! key) with
         | Some v => Return v
         | None => Raise KeyError
         end, w, [EReadData id unit key])
  end.

(** [relation.data[self.charm.unit].update({key: value})]. *)
Definition with_own_data (id : nat) (key value : string) (w : World) : World :=
  let r := relation w id in
  with_relation id
    (mkRelation (units r) (data r) (update (own_data r) {[key := value]})) w.

Definition own_data_update (id : nat) (key value : string) : M unit :=
  perform (EUpdateData id key value) (with_own_data id key value).

(** [model.relations[name]]: the mapping has an entry, possibly an empty
    list, for every endpoint the charm declares in its metadata; subscripting
    it with another name raises [KeyError]. *)
Definition relations_of (name : string) : M (list nat) :=
  fun w =>
    (match model_relations w !! name with
     | Some relations => Return relations
     | None => Raise KeyError
     end, w, [EListRelations name]).

Definition is_leader : M bool := observe EIsLeader leader.

Definition can_connect : M bool := observe ECanConnect connectable.

Definition get_plan : M (gmap string Service) := observe EGetPlan plan.

(** [container.get_service(name)]: Pebble reports the services of the plan,
    and the call raises [ModelError] for a name that is not among them. *)
Definition get_service (name : string) : M unit :=
  fun w =>
    (match plan w !! name with
     | Some _ => Return tt
     | None => Raise ModelError
     end, w, [EGetService name]).

(** [container.add_layer(label, layer, combine=...)]: the layer is combined
    into the one that has the label, which Pebble refuses to do without
    [combine]; a layer under a new label is put where the host puts new
    layers. *)
Definition add_layer (label : string) (layer : Layer) (combine : bool)
  : M unit :=
  fun w =>
    match combine_layer label (services layer) (layers w) with
    | Some combined =>
        if combine
        then (Return tt, with_layers combined w,
              [EAddLayer label layer combine])
        else (Raise APIError, w, [EAddLayer label layer combine])
    | None =>
        (Return tt,
         with_layers
           (insert_layer label (services layer) (new_layer_position w)
              (layers w)) w,
         [EAddLayer label layer combine])
    end.

Definition restart (name : string) : M unit := perform (ERestart name) id.

Definition logger_info (msg : string) : M unit := perform (ELogInfo msg) id.

Definition set_status (s : Status) : M unit :=
  perform (ESetStatus s) (with_status s).

(** [event.defer()]. *)
Definition defer : M unit := perform EDefer id.

(** ** The library *)

(** What the library reads from the parent charm. *)
Record Charm := mkCharm {
  meta_name : string;             (* charm.meta.name *)
  meta_provides : list string;    (* charm.meta.provides.keys() *)
  model_name : string             (* charm.model.name *)
}.

(** The attributes [Orc8rBase.__init__] sets. *)
Record Orc8rBase := mkOrc8rBase {
  charm : Charm;
  startup_command : string;
  required_relations : list string;
  container_name : string;
  service_name : string;
  observes_relation_joined : bool;
  additional_environment_variables : gmap string string
}.

(** [Orc8rBase.__init__]. *)
Definition new (c : Charm) (cmd : string)
    (required : option (list string))
    (additional : option (gmap string string)) : Orc8rBase :=
  {| charm := c;
     startup_command := cmd;
     required_relations := default [] required;
     container_name := meta_name c;
     service_name := meta_name c;
     observes_relation_joined := bool_decide (meta_name c ∈ meta_provides c);
     additional_environment_variables := default ∅ additional |}.

Section Methods.

Variable self : Orc8rBase.

Definition namespace : string := model_name (charm self).

Definition _environment_variables : gmap string string :=
  let environment_variables : gmap string string := ∅ in
  let default_environment_variables : gmap string string :=
    <["SERVICE_HOSTNAME" := container_name self]>
    (<["SERVICE_REGISTRY_MODE" := "k8s"]>
    (<["SERVICE_REGISTRY_NAMESPACE" := namespace]> ∅)) in
  let environment_variables :=
    update environment_variables (additional_environment_variables self) in
  let environment_variables :=
    update environment_variables default_environment_variables in
  environment_variables.

Definition _pebble_layer : Layer :=
  {| layer_summary := service_name self +:+ " layer";
     layer_description :=
       "pebble config layer for " +:+ service_name self;
     services :=
       {[ service_name self :=
            {| override := "replace";
               summary := service_name self;
               startup := "enabled";
               command := startup_command self;
               environment := _environment_variables |} ]} |}.

Definition _relation_active (relation_name : string) : M bool :=
  try_except
    (rel <- get_relation relation_name ;;
     units <- rel_units rel ;;
     unit <- next_iter units ;;
     active <- rel_data_get rel unit "active" ;;
     ret (bool_decide (active = "True")))
    [AttributeError; KeyError; StopIteration]
    (ret false).

Definition _service_is_running : M bool :=
  connected <- can_connect ;;
  if connected then
    returned <- try_except
                  (get_service (service_name self) ;; ret (Some true))
                  [ModelError]
                  (ret None) ;;
    match returned with
    | Some b => ret b
    | None => ret false
    end
  else ret false.

Definition _relations_created : M bool :=
  missing_relations <-
    comprehension
      (fun relation =>
         rel <- get_relation relation ;;
         ret (negb (bool_decide (is_Some rel))))
      (required_relations self) ;;
  match missing_relations with
  | _ :: _ =>
      let msg := "Waiting for relation(s) to be created: "
                 +:+ join ", " missing_relations in
      set_status (BlockedStatus msg) ;;
      ret false
  | [] => ret true
  end.

Definition _relations_ready : M bool :=
  missing_relations <-
    comprehension
      (fun relation =>
         active <- _relation_active relation ;;
         ret (negb active))
      (required_relations self) ;;
  match missing_relations with
  | _ :: _ =>
      let msg := "Waiting for relation(s) to be ready: "
                 +:+ join ", " missing_relations in
      set_status (WaitingStatus msg) ;;
      ret false
  | [] => ret true
  end.

Definition _update_relation_active_status (relation : nat)
    (is_active : bool) : M unit :=
  own_data_update relation "active" (str_of_bool is_active).

Definition _update_relations : M unit :=
  leading <- is_leader ;;
  if negb leading then ret tt
  else
    relations <- relations_of (meta_name (charm self)) ;;
    for_each
      (fun relation =>
         is_active <- _service_is_running ;;
         _update_relation_active_status relation is_active)
      relations.

Definition _configure_charm : M unit :=
  connected <- can_connect ;;
  if connected then
    set_status (MaintenanceStatus "Configuring pod") ;;
    let pebble_layer := _pebble_layer in
    plan <- get_plan ;;
    (if bool_decide (plan ≠ services pebble_layer) then
       add_layer (container_name self) pebble_layer true ;;
       restart (service_name self) ;;
       logger_info ("Restarted container " +:+ service_name self) ;;
       _update_relations
     else ret tt) ;;
    set_status ActiveStatus
  else
    set_status (WaitingStatus "Waiting for container to be ready...") ;;
    defer.

(** The handler of the pebble-ready and upgrade-charm events. *)
Definition _configure_workload : M unit :=
  created <- _relations_created ;;
  if negb created then defer
  else
    ready <- _relations_ready ;;
    if negb ready then defer
    else _configure_charm.

(** The handler of the relation-joined event of the provided relation;
    [event_relation] is [event.relation]. *)
Definition _on_relation_joined (event_relation : nat) : M unit :=
  leading <- is_leader ;;
  if negb leading then ret tt
  else
    is_active <- _service_is_running ;;
    _update_relation_active_status event_relation is_active ;;
    running <- _service_is_running ;;
    if negb running then defer
    else ret tt.

End Methods.

(** ** What the methods compute *)

(** The exception [model.get_relation(name)] raises, if it raises. *)
Definition get_relation_error (w : World) (name : string) : option exn :=
  match get_relation_outcome w name with
  | Raise e => Some e
  | Return _ => None
  end.

(** [model.get_relation(name)] answers, with a relation or with [None]: the
    endpoint is declared and holds at most one relation. *)
Definition answers (w : World) (name : string) : Prop :=
  exists rel, fst (fst (get_relation name w)) = Return rel.

(** The counterpart unit [_relation_active] looks at: the first one that
    iterating over the units of the relation yields. *)
Definition inspected_unit (w : World) (name : string) : option (nat * string) :=
  match model_get_relation w !! name with
  | Some id =>
      match units (relation w id) with
      | unit :: _ => Some (id, unit)
      | [] => None
      end
  | None => None
  end.

(** The value under ["active"] in the bag of the inspected unit. *)
Definition observed_signal (w : World) (name : string) : option string :=
  match inspected_unit w name with
  | Some (id, unit) =>
      data (relation w id) !! unit ≫= (fun bag => bag !! "active")
  | None => None
  end.

Definition relation_ready (w : World) (name : string) : bool :=
  bool_decide (observed_signal w name = Some "True").

(** The exception [_relation_active] lets through: the one of
    [model.get_relation] that is none of the three it catches. *)
Definition relation_active_error (w : World) (name : string) : option exn :=
  match get_relation_error w name with
  | Some e =>
      if existsb (is_instance e) [AttributeError; KeyError; StopIteration]
      then None
      else Some e
  | None => None
  end.

Definition relation_active_outcome (w : World) (name : string)
  : outcome bool :=
  match relation_active_error w name with
  | Some e => Raise e
  | None => Return (relation_ready w name)
  end.

Definition relation_active_log (w : World) (name : string) : list Effect :=
  EGetRelation name ::
  match inspected_unit w name with
  | Some (id, unit) => [EReadData id unit "active"]
  | None => []
  end.

Definition service_registered (self : Orc8rBase) (w : World) : bool :=
  bool_decide (is_Some (plan w !! service_name self)).

Definition service_running (self : Orc8rBase) (w : World) : bool :=
  connectable w && service_registered self w.

Definition service_probe_log (self : Orc8rBase) (w : World) : list Effect :=
  ECanConnect ::
  (if connectable w then [EGetService (service_name self)] else []).

(** A comprehension stops at the first element whose test raises:
    [first_raise] is the exception it ends in, [reached] the elements it
    gets to. *)
Fixpoint first_raise {A} (error : A -> option exn) (l : list A)
  : option exn :=
  match l with
  | [] => None
  | x :: rest =>
      match error x with
      | Some e => Some e
      | None => first_raise error rest
      end
  end.

Fixpoint reached {A} (error : A -> option exn) (l : list A) : list A :=
  match l with
  | [] => []
  | x :: rest =>
      x :: match error x with
           | Some _ => []
           | None => reached error rest
           end
  end.

(** The required relations [model.get_relation] finds nothing for, and the
    ones whose counterpart has not signalled readiness, both in the order of
    [required_relations]. *)
Definition relation_missing (w : World) (name : string) : bool :=
  negb (bool_decide (is_Some (model_get_relation w !! name))).

Definition missing_relations (self : Orc8rBase) (w : World) : list string :=
  List.filter (relation_missing w) (required_relations self).

Definition unready_relations (self : Orc8rBase) (w : World) : list string :=
  List.filter (fun name => negb (relation_ready w name))
    (required_relations self).

Definition created_message (names : list string) : string :=
  "Waiting for relation(s) to be created: " +:+ join ", " names.

Definition ready_message (names : list string) : string :=
  "Waiting for relation(s) to be ready: " +:+ join ", " names.

(** The exception each check ends in, if any, and the calls it makes. *)
Definition created_error (self : Orc8rBase) (w : World) : option exn :=
  first_raise (get_relation_error w) (required_relations self).

Definition ready_error (self : Orc8rBase) (w : World) : option exn :=
  first_raise (relation_active_error w) (required_relations self).

Definition created_log (self : Orc8rBase) (w : World) : list Effect :=
  concat (List.map (fun name => [EGetRelation name])
            (reached (get_relation_error w) (required_relations self))).

Definition ready_log (self : Orc8rBase) (w : World) : list Effect :=
  concat (List.map (relation_active_log w)
            (reached (relation_active_error w) (required_relations self))).

(** The charm declares the relation named after it, as the documentation of
    the library asks of every charm that uses it ("Charms that leverage this
    library also need to specify a [provides] relation"), so that
    [model.relations] has an entry under that name. *)
Definition provides_own_relation (self : Orc8rBase) (w : World) : Prop :=
  is_Some (model_relations w !! meta_name (charm self)).

(** The relations held under the charm's own relation name. *)
Definition own_relations (self : Orc8rBase) (w : World) : list nat :=
  default [] (model_relations w !! meta_name (charm self)).

(** The labels of the layers are distinct, as Pebble keeps them, and no
    layer under another label than the container's defines the named
    service: nothing in the container stands in the way of the entry the
    library applies. *)
Definition unrivalled (self : Orc8rBase) (w : World) : Prop :=
  NoDup (layers w).*1
  /\ forall label entries,
       (label, entries) ∈ layers w ->
       label <> container_name self ->
       entries !! service_name self = None.

(** Writing one value under ["active"] into the unit's bag of each of the
    given relations, in order. *)
Definition publish (value : string) (ids : list nat) (w : World) : World :=
  fold_left (fun w id => with_own_data id "active" value w) ids w.

Definition publish_log (self : Orc8rBase) (w : World) (ids : list nat)
  : list Effect :=
  concat (List.map
            (fun id =>
               service_probe_log self w
               ++ [EUpdateData id "active"
                     (str_of_bool (service_running self w))])
            ids).

Definition update_relations_world (self : Orc8rBase) (w : World) : World :=
  if leader w
  then publish (str_of_bool (service_running self w)) (own_relations self w) w
  else w.

Definition update_relations_log (self : Orc8rBase) (w : World) : list Effect :=
  EIsLeader ::
  (if leader w
   then EListRelations (meta_name (charm self))
        :: publish_log self w (own_relations self w)
   else []).

(** [_update_relations] completes, unless the unit is the leader and the
    charm does not declare the relation named after it. *)
Definition update_relations_outcome (self : Orc8rBase) (w : World)
  : outcome unit :=
  if leader w then
    match model_relations w !! meta_name (charm self) with
    | Some _ => Return tt
    | None => Raise KeyError
    end
  else Return tt.

(** The layers after [container.add_layer(label, layer, combine=True)]. *)
Definition added_layers (label : string) (layer : Layer) (w : World)
  : Layers :=
  match combine_layer label (services layer) (layers w) with
  | Some combined => combined
  | None =>
      insert_layer label (services layer) (new_layer_position w) (layers w)
  end.

(** The world once the layer is applied: status Maintenance, the layer
    combined into the layers of the container. *)
Definition layered (self : Orc8rBase) (w : World) : World :=
  with_layers (added_layers (container_name self) (_pebble_layer self) w)
    (with_status (MaintenanceStatus "Configuring pod") w).

(** Whether [_configure_charm] applies the layer: the container answers and
    the services of the plan differ from those of the computed layer. *)
Definition applies (self : Orc8rBase) (w : World) : bool :=
  connectable w && bool_decide (plan w ≠ services (_pebble_layer self)).

Definition configure_charm_outcome (self : Orc8rBase) (w : World)
  : outcome unit :=
  if connectable w then
    if bool_decide (plan w ≠ services (_pebble_layer self))
    then update_relations_outcome self (layered self w)
    else Return tt
  else Return tt.

(** The last statement of the connected branch of [_configure_charm], which
    an exception raised before it skips. *)
Definition conclude (o : outcome unit) (w : World) : World :=
  match o with
  | Return _ => with_status ActiveStatus w
  | Raise _ => w
  end.

Definition conclude_log (o : outcome unit) : list Effect :=
  match o with
  | Return _ => [ESetStatus ActiveStatus]
  | Raise _ => []
  end.

Definition configure_charm_world (self : Orc8rBase) (w : World) : World :=
  if connectable w then
    conclude (configure_charm_outcome self w)
      (if bool_decide (plan w ≠ services (_pebble_layer self))
       then update_relations_world self (layered self w)
       else with_status (MaintenanceStatus "Configuring pod") w)
  else with_status (WaitingStatus "Waiting for container to be ready...") w.

Definition configure_charm_log (self : Orc8rBase) (w : World) : list Effect :=
  if connectable w then
    [ECanConnect; ESetStatus (MaintenanceStatus "Configuring pod"); EGetPlan]
    ++ (if bool_decide (plan w ≠ services (_pebble_layer self))
        then [EAddLayer (container_name self) (_pebble_layer self) true;
              ERestart (service_name self);
              ELogInfo ("Restarted container " +:+ service_name self)]
             ++ update_relations_log self (layered self w)
        else [])
    ++ conclude_log (configure_charm_outcome self w)
  else
    [ECanConnect;
     ESetStatus (WaitingStatus "Waiting for container to be ready...");
     EDefer].

(** The handler ends in the exception of the first check, if that raises;
    once the first check has found every required relation, the second
    cannot raise. *)
Definition configure_workload_outcome (self : Orc8rBase) (w : World)
  : outcome unit :=
  match created_error self w with
  | Some e => Raise e
  | None =>
      match missing_relations self w, unready_relations self w with
      | [], [] => configure_charm_outcome self w
      | _, _ => Return tt
      end
  end.

Definition configure_workload_world (self : Orc8rBase) (w : World) : World :=
  match created_error self w with
  | Some _ => w
  | None =>
      match missing_relations self w with
      | [] =>
          match unready_relations self w with
          | [] => configure_charm_world self w
          | names => with_status (WaitingStatus (ready_message names)) w
          end
      | names => with_status (BlockedStatus (created_message names)) w
      end
  end.

Definition configure_workload_log (self : Orc8rBase) (w : World)
  : list Effect :=
  match created_error self w with
  | Some _ => created_log self w
  | None =>
      match missing_relations self w with
      | [] =>
          created_log self w ++
          match unready_relations self w with
          | [] => ready_log self w ++ configure_charm_log self w
          | names =>
              ready_log self w
              ++ [ESetStatus (WaitingStatus (ready_message names)); EDefer]
          end
      | names =>
          created_log self w
          ++ [ESetStatus (BlockedStatus (created_message names)); EDefer]
      end
  end.

Definition relation_joined_world (self : Orc8rBase) (event_relation : nat)
    (w : World) : World :=
  if leader w
  then with_own_data event_relation "active"
         (str_of_bool (service_running self w)) w
  else w.

Definition relation_joined_log (self : Orc8rBase) (event_relation : nat)
    (w : World) : list Effect :=
  EIsLeader ::
  (if leader w
   then service_probe_log self w
        ++ [EUpdateData event_relation "active"
              (str_of_bool (service_running self w))]
        ++ service_probe_log self w
        ++ (if service_running self w then [] else [EDefer])
   else []).

(** The relation updates a reconfiguration sends, as the unit sees them. *)
Definition published (self : Orc8rBase) (w : World) : list Effect :=
  if leader w
  then List.map
         (fun id =>
            EUpdateData id "active" (str_of_bool (service_running self w)))
         (own_relations self w)
  else [].

(** Two worlds in which the required relations look the same: the same
    relations on every endpoint, with the same counterpart units and bags. *)
Definition same_counterparts (w w' : World) : Prop :=
  model_relations w' = model_relations w
  /\ forall id,
       units (relation w' id) = units (relation w id)
       /\ data (relation w' id) = data (relation w id).

(** ** The charms of the test suite *)

Definition dummy_charm : Charm :=
  mkCharm "magma-orc8r-dummy" ["magma-orc8r-dummy"] "banana".

Definition dummy_command : string :=
  "/usr/bin/envdir /var/opt/magma/envdir /var/opt/magma/bin/dummy -logtostderr=true -v=0".

(** [MagmaOrc8rDummyCharm]: no required relation, no override. *)
Definition dummy : Orc8rBase := new dummy_charm dummy_command None None.

(** [MagmaOrc8rDummyCharmWithRequiredRelation]. *)
Definition dummy_with_required_relation : Orc8rBase :=
  new dummy_charm dummy_command (Some ["magma-orc8r-whatever"]) None.

Definition no_relation : Relation := mkRelation [] ∅ ∅.

(** A unit right after deployment: not the leader, container not yet
    reachable, no layer, no relation. *)
Definition fresh_world : World :=
  mkWorld false false [] 0
          {["magma-orc8r-dummy" := []; "magma-orc8r-whatever" := []]}
          (fun _ => no_relation) UnknownStatus.

(** The required relation is established (relation 1) and a counterpart
    unit has joined; [signal] is what that unit published, if anything. *)
Definition related_world (is_leader connected : bool)
    (signal : gmap string string) : World :=
  mkWorld is_leader connected [] 0
          {["magma-orc8r-dummy" := [0]; "magma-orc8r-whatever" := [1]]}
          (fun id =>
             if decide (id = 1)
             then mkRelation ["remote-app/0"] {["remote-app/0" := signal]} ∅
             else if decide (id = 0)
                  then mkRelation ["whatever/0"] {["whatever/0" := ∅]} ∅
                  else no_relation)
          UnknownStatus.

(** Two applications are related on the required endpoint (relations 1 and
    2), each with a unit that signals readiness. *)
Definition doubly_related_world (connected : bool) : World :=
  mkWorld false connected [] 0
          {["magma-orc8r-dummy" := []; "magma-orc8r-whatever" := [1; 2]]}
          (fun id =>
             if decide (id = 1)
             then mkRelation ["remote-app/0"]
                    {["remote-app/0" := {["active" := "True"]}]} ∅
             else if decide (id = 2)
                  then mkRelation ["other-app/0"]
                         {["other-app/0" := {["active" := "True"]}]} ∅
                  else no_relation)
          UnknownStatus.

(** A charm that declares no relation at all, and its leader with the
    container reachable. *)
Definition standalone : Orc8rBase :=
  new (mkCharm "magma-orc8r-dummy" [] "banana") dummy_command None None.

Definition standalone_leader_world : World :=
  mkWorld true true [] 0 ∅ (fun _ => no_relation) UnknownStatus.

(** A reachable container that already holds a layer with a service of
    another name. *)
Definition shared_container_world : World :=
  mkWorld false true
          [("metrics-exporter",
            {["metrics-exporter" :=
                mkService "replace" "metrics-exporter" "enabled"
                          "/usr/bin/exporter" ∅]})]
          1 {["magma-orc8r-dummy" := []]}
          (fun _ => no_relation) UnknownStatus.


(** ** Statements of the specification the code does not satisfy as worded *)


(** The wording of C5: an unreachable container gives status Waiting and a
    deferred event, whatever the state of the required relations. *)
Definition unreachable_sets_waiting (self : Orc8rBase) (w : World) : Prop :=
  connectable w = false ->
  exists w' log msg,
    _configure_workload self w = (Return tt, w', log)
    /\ status w' = WaitingStatus msg
    /\ In EDefer log.


(** The wording of C9: a reconfiguration writes the readiness value into
    every relation held under the charm's own name. *)
Definition reconfiguration_writes_relations (self : Orc8rBase) (w : World)
  : Prop :=
  (forall name, name ∈ required_relations self -> relation_ready w name = true) ->
  connectable w = true ->
  plan w <> services (_pebble_layer self) ->
  exists w' log,
    _configure_workload self w = (Return tt, w', log)
    /\ forall id,
         id ∈ own_relations self w ->
         exists value,
           In (EUpdateData id "active" value) log
           /\ own_data (relation w' id) !! "active" = Some value.

(** The wording of C10: the readiness check of a relation never raises. *)
Definition relation_active_never_raises (name : string) (w : World) : Prop :=
  exists (b : bool) (w' : World) (log : list Effect),
    _relation_active name w = (Return b, w', log).

(** ** Running the methods *)

Lemma bind_return {A B} (m : M A) (k : A -> M B) w a w1 l1 :
  m w = (Return a, w1, l1) ->
  bind m k w = match k a w1 with (o, w2, l2) => (o, w2, l1 ++ l2) end.
Proof. intros E. unfold bind. now rewrite E. Qed.

Lemma bind_return_eq {A B} (m : M A) (k : A -> M B) w a w1 l1 o w2 l2 :
  m w = (Return a, w1, l1) ->
  k a w1 = (o, w2, l2) ->
  bind m k w = (o, w2, l1 ++ l2).
Proof. intros E1 E2. rewrite (bind_return _ _ _ _ _ _ E1). now rewrite E2. Qed.

Lemma bind_raise {A B} (m : M A) (k : A -> M B) w e w1 l1 :
  m w = (Raise e, w1, l1) -> bind m k w = (Raise e, w1, l1).
Proof. intros E. unfold bind. now rewrite E. Qed.

Lemma comprehension_run {A} (keep : A -> M bool) (error : A -> option exn)
    (p : A -> bool) (lg : A -> list Effect) (w : World) (l : list A) :
  (forall x,
     keep x w
     = (match error x with
        | Some e => Raise e
        | None => Return (p x)
        end, w, lg x)) ->
  comprehension keep l w
  = (match first_raise error l with
     | Some e => Raise e
     | None => Return (List.filter p l)
     end, w, concat (List.map lg (reached error l))).
Proof.
  intros Hkeep. induction l as [|x rest IH]; [reflexivity|].
  cbn [comprehension List.filter first_raise reached].
  pose proof (Hkeep x) as Hx.
  destruct (error x) as [e|].
  - rewrite (bind_raise _ _ _ _ _ _ Hx). cbn. now rewrite app_nil_r.
  - cbn [List.map concat].
    rewrite (bind_return _ _ _ _ _ _ Hx).
    destruct (first_raise error rest) as [e|].
    + rewrite (bind_raise _ _ _ _ _ _ IH). reflexivity.
    + rewrite (bind_return _ _ _ _ _ _ IH). cbn. now rewrite app_nil_r.
Qed.

Lemma first_raise_none {A} (error : A -> option exn) (l : list A) :
  first_raise error l = None <-> forall x, x ∈ l -> error x = None.
Proof.
  induction l as [|y l IH]; cbn.
  - split; [|reflexivity]. intros _ x Hin. now apply not_elem_of_nil in Hin.
  - destruct (error y) as [e|] eqn:Ey.
    + split; [discriminate|]. intros H.
      rewrite <- Ey. apply H. left.
    + rewrite IH. split.
      * intros H x Hin. apply elem_of_cons in Hin as [->|Hin]; auto.
      * intros H x Hin. apply H. now right.
Qed.

Lemma first_raise_some {A} (error : A -> option exn) (l : list A) (e : exn) :
  first_raise error l = Some e -> exists x, x ∈ l /\ error x = Some e.
Proof.
  induction l as [|y l IH]; cbn; [discriminate|].
  destruct (error y) as [e'|] eqn:Ey.
  - intros H. injection H as <-. exists y. split; [left | exact Ey].
  - intros H. destruct (IH H) as (x & Hin & Hx).
    exists x. split; [now right | exact Hx].
Qed.

Lemma reached_all {A} (error : A -> option exn) (l : list A) :
  first_raise error l = None -> reached error l = l.
Proof.
  induction l as [|y l IH]; cbn; [reflexivity|].
  destruct (error y); [discriminate|]. intros H. now rewrite IH.
Qed.

Lemma model_get_relation_lookup (w : World) (name : string) :
  model_get_relation w !! name
  = match model_relations w !! name with
    | Some [id] => Some id
    | _ => None
    end.
Proof.
  unfold model_get_relation. rewrite lookup_omap.
  destruct (model_relations w !! name) as [[|id [|id' rest]]|]; reflexivity.
Qed.

Lemma get_relation_returns (w : World) (name : string) (rel : option nat) :
  get_relation_outcome w name = Return rel ->
  model_get_relation w !! name = rel /\ get_relation_error w name = None.
Proof.
  unfold get_relation_error. rewrite model_get_relation_lookup.
  unfold get_relation_outcome.
  destruct (model_relations w !! name) as [[|id [|id' rest]]|];
    intros H; try discriminate; injection H as <-; split; reflexivity.
Qed.

Lemma answers_error (w : World) (name : string) :
  answers w name <-> get_relation_error w name = None.
Proof.
  unfold answers, get_relation_error. cbn [get_relation fst].
  destruct (get_relation_outcome w name) as [rel|e].
  - split; eauto.
  - split; [intros [rel H]; discriminate | discriminate].
Qed.

Lemma answers_lookup (w : World) (name : string) :
  answers w name
  <-> model_relations w !! name = Some []
      \/ exists id, model_relations w !! name = Some [id].
Proof.
  rewrite answers_error. unfold get_relation_error, get_relation_outcome.
  destruct (model_relations w !! name) as [[|id [|id' rest]]|].
  - split; auto.
  - split; eauto.
  - split; [discriminate|]. intros [H|[id0 H]]; discriminate.
  - split; [discriminate|]. intros [H|[id0 H]]; discriminate.
Qed.

Lemma get_relation_exists (w : World) (name : string) :
  is_Some (model_get_relation w !! name) ->
  get_relation_outcome w name = Return (model_get_relation w !! name)
  /\ get_relation_error w name = None
  /\ relation_active_error w name = None.
Proof.
  unfold relation_active_error, get_relation_error.
  rewrite model_get_relation_lookup. unfold get_relation_outcome.
  destruct (model_relations w !! name) as [[|id [|id' rest]]|];
    intros [id0 H]; try discriminate; repeat split.
Qed.

Lemma _relation_active_run (name : string) (w : World) :
  _relation_active name w
  = (relation_active_outcome w name, w, relation_active_log w name).
Proof.
  unfold _relation_active, try_except, bind, get_relation,
    relation_active_outcome, relation_active_error, get_relation_error,
    relation_ready, observed_signal, relation_active_log, inspected_unit.
  rewrite model_get_relation_lookup. unfold get_relation_outcome.
  destruct (model_relations w !! name) as [[|id [|id' rest]]|]; cbn;
    try reflexivity.
  destruct (units (relation w id)) as [|unit units]; cbn; [reflexivity|].
  destruct (data (relation w id) !! unit ≫= _) as [v|]; cbn; [|reflexivity].
  f_equal. f_equal. f_equal.
  apply bool_decide_ext. split; congruence.
Qed.

Lemma _service_is_running_run (self : Orc8rBase) (w : World) :
  _service_is_running self w
  = (Return (service_running self w), w, service_probe_log self w).
Proof.
  unfold _service_is_running, try_except, bind, can_connect, get_service,
    observe, service_running, service_registered, service_probe_log.
  destruct (connectable w); cbn; [|reflexivity].
  destruct (plan w !! service_name self) as [s|]; reflexivity.
Qed.

Lemma _relations_created_run (self : Orc8rBase) (w : World) :
  _relations_created self w
  = match created_error self w with
    | Some e => (Raise e, w, created_log self w)
    | None =>
        match missing_relations self w with
        | [] => (Return true, w, created_log self w)
        | names =>
            (Return false,
             with_status (BlockedStatus (created_message names)) w,
             created_log self w
             ++ [ESetStatus (BlockedStatus (created_message names))])
        end
    end.
Proof.
  unfold _relations_created.
  assert (Hkeep :
            forall x,
              bind (get_relation x)
                (fun rel => ret (negb (bool_decide (is_Some rel)))) w
              = (match get_relation_error w x with
                 | Some e => Raise e
                 | None => Return (relation_missing w x)
                 end, w, [EGetRelation x])).
  { intros x. unfold bind, get_relation, get_relation_error, relation_missing.
    destruct (get_relation_outcome w x) as [rel|e] eqn:Eo; [|reflexivity].
    destruct (get_relation_returns w x rel Eo) as [-> _]. reflexivity. }
  pose proof (comprehension_run
                (fun relation =>
                   rel <- get_relation relation ;;
                   ret (negb (bool_decide (is_Some rel))))
                (get_relation_error w) (relation_missing w)
                (fun name => [EGetRelation name]) w (required_relations self)
                Hkeep) as Hrun.
  fold (created_error self w) in Hrun. fold (created_log self w) in Hrun.
  fold (missing_relations self w) in Hrun.
  destruct (created_error self w) as [e|].
  - now rewrite (bind_raise _ _ _ _ _ _ Hrun).
  - rewrite (bind_return _ _ _ _ _ _ Hrun).
    destruct (missing_relations self w); cbn.
    + now rewrite app_nil_r.
    + reflexivity.
Qed.

Lemma _relations_ready_run (self : Orc8rBase) (w : World) :
  _relations_ready self w
  = match ready_error self w with
    | Some e => (Raise e, w, ready_log self w)
    | None =>
        match unready_relations self w with
        | [] => (Return true, w, ready_log self w)
        | names =>
            (Return false,
             with_status (WaitingStatus (ready_message names)) w,
             ready_log self w
             ++ [ESetStatus (WaitingStatus (ready_message names))])
        end
    end.
Proof.
  unfold _relations_ready.
  assert (Hkeep :
            forall x,
              bind (_relation_active x) (fun active => ret (negb active)) w
              = (match relation_active_error w x with
                 | Some e => Raise e
                 | None => Return (negb (relation_ready w x))
                 end, w, relation_active_log w x)).
  { intros x. unfold bind. rewrite _relation_active_run.
    unfold relation_active_outcome.
    destruct (relation_active_error w x); [reflexivity|].
    cbn. now rewrite app_nil_r. }
  pose proof (comprehension_run
                (fun relation =>
                   active <- _relation_active relation ;;
                   ret (negb active))
                (relation_active_error w)
                (fun name => negb (relation_ready w name))
                (relation_active_log w) w (required_relations self)
                Hkeep) as Hrun.
  fold (ready_error self w) in Hrun. fold (ready_log self w) in Hrun.
  fold (unready_relations self w) in Hrun.
  destruct (ready_error self w) as [e|].
  - now rewrite (bind_raise _ _ _ _ _ _ Hrun).
  - rewrite (bind_return _ _ _ _ _ _ Hrun).
    destruct (unready_relations self w); cbn.
    + now rewrite app_nil_r.
    + reflexivity.
Qed.

Lemma service_running_with_own_data self id key value w :
  service_running self (with_own_data id key value w) = service_running self w.
Proof. reflexivity. Qed.

Lemma for_each_publish (self : Orc8rBase) (ids : list nat) (w0 w : World) :
  connectable w = connectable w0 ->
  plan w = plan w0 ->
  for_each
    (fun relation =>
       is_active <- _service_is_running self ;;
       _update_relation_active_status relation is_active)
    ids w
  = (Return tt,
     publish (str_of_bool (service_running self w0)) ids w,
     publish_log self w0 ids).
Proof.
  revert w. induction ids as [|id rest IH]; intros w Hc Hp; [reflexivity|].
  cbn [for_each publish fold_left publish_log List.map concat].
  assert (Hrun : service_running self w = service_running self w0)
    by (unfold service_running, service_registered; now rewrite Hc, Hp).
  assert (Hlog : service_probe_log self w = service_probe_log self w0)
    by (unfold service_probe_log; now rewrite Hc).
  unfold bind at 1. unfold bind at 1.
  rewrite _service_is_running_run, Hrun, Hlog.
  unfold _update_relation_active_status, own_data_update, perform.
  rewrite IH by assumption.
  reflexivity.
Qed.

Lemma _update_relations_run (self : Orc8rBase) (w : World) :
  _update_relations self w
  = (update_relations_outcome self w, update_relations_world self w,
     update_relations_log self w).
Proof.
  unfold _update_relations, update_relations_outcome, update_relations_world,
    update_relations_log, own_relations.
  unfold bind at 1. unfold is_leader, observe.
  destruct (leader w) eqn:El; cbn [negb]; [|reflexivity].
  unfold bind at 1. unfold relations_of.
  destruct (model_relations w !! meta_name (charm self)) as [ids|];
    [|reflexivity].
  rewrite (for_each_publish self _ w w) by reflexivity.
  reflexivity.
Qed.

Lemma add_layer_run (label : string) (layer : Layer) (w : World) :
  add_layer label layer true w
  = (Return tt, with_layers (added_layers label layer w) w,
     [EAddLayer label layer true]).
Proof.
  unfold add_layer, added_layers.
  destruct (combine_layer label (services layer) (layers w)); reflexivity.
Qed.

Lemma _configure_charm_run (self : Orc8rBase) (w : World) :
  _configure_charm self w
  = (configure_charm_outcome self w, configure_charm_world self w,
     configure_charm_log self w).
Proof.
  unfold _configure_charm, configure_charm_world, configure_charm_log.
  unfold configure_charm_outcome.
  unfold bind at 1. unfold can_connect, observe.
  destruct (connectable w) eqn:Ec; [|reflexivity].
  unfold bind at 1. unfold set_status at 1. unfold perform.
  unfold bind at 1. unfold get_plan, observe.
  change (plan (with_status (MaintenanceStatus "Configuring pod") w))
    with (plan w).
  destruct (bool_decide (plan w ≠ services (_pebble_layer self))) eqn:Ed.
  - unfold bind at 1.
    unfold bind at 1. rewrite add_layer_run.
    unfold bind at 1. unfold restart at 1. unfold perform.
    unfold bind at 1. unfold logger_info at 1. unfold perform.
    cbn [id].
    change (with_layers
              (added_layers (container_name self) (_pebble_layer self)
                 (with_status (MaintenanceStatus "Configuring pod") w))
              (with_status (MaintenanceStatus "Configuring pod") w))
      with (layered self w).
    rewrite _update_relations_run.
    destruct (update_relations_outcome self (layered self w)) as [[]|e];
      cbn; rewrite ?app_nil_r; reflexivity.
  - reflexivity.
Qed.

Lemma relation_missing_false (w : World) (name : string) :
  relation_missing w name = false <-> is_Some (model_get_relation w !! name).
Proof.
  unfold relation_missing. rewrite negb_false_iff.
  split; [apply bool_decide_eq_true_1 | apply bool_decide_eq_true_2].
Qed.

Lemma filter_nil_inv {A} (p : A -> bool) (l : list A) :
  List.filter p l = [] -> forall x, x ∈ l -> p x = false.
Proof.
  induction l as [|y l IH]; intros Hnil x Hin;
    [now apply not_elem_of_nil in Hin|].
  cbn in Hnil. destruct (p y) eqn:Ey; [discriminate|].
  apply elem_of_cons in Hin as [->|Hin]; [exact Ey | now apply IH].
Qed.

Lemma filter_none {A} (p : A -> bool) (l : list A) :
  (forall x, x ∈ l -> p x = false) -> List.filter p l = [].
Proof.
  induction l as [|x l IH]; intros Hp; [reflexivity|].
  cbn. rewrite (Hp x) by left. apply IH. intros y Hy. apply Hp. now right.
Qed.


Lemma filter_ext_in {A} (p q : A -> bool) (l : list A) :
  (forall x, x ∈ l -> p x = q x) -> List.filter p l = List.filter q l.
Proof.
  induction l as [|x l IH]; intros Hpq; [reflexivity|].
  cbn. rewrite (Hpq x) by left.
  rewrite IH; [reflexivity|]. intros y Hy. apply Hpq. now right.
Qed.

Lemma filter_elem_of {A} (p : A -> bool) (l : list A) (x : A) :
  x ∈ List.filter p l <-> x ∈ l /\ p x = true.
Proof.
  induction l as [|y l IH]; cbn.
  - split; [intros H; now apply not_elem_of_nil in H|].
    intros [H _]. now apply not_elem_of_nil in H.
  - destruct (p y) eqn:Ey.
    + rewrite !elem_of_cons, IH. split.
      * intros [->|[H1 H2]]; auto.
      * intros [[->|H1] H2]; auto.
    + rewrite elem_of_cons, IH. split.
      * intros [H1 H2]; auto.
      * intros [[->|H1] H2]; [congruence | auto].
Qed.

(** Once [_relations_created] has found every required relation,
    [_relations_ready] cannot raise. *)
Lemma all_found (self : Orc8rBase) (w : World) :
  created_error self w = None /\ missing_relations self w = []
  <-> forall name, name ∈ required_relations self ->
                   is_Some (model_get_relation w !! name).
Proof.
  split.
  - intros [_ Hm] name Hin.
    apply relation_missing_false. now apply (filter_nil_inv _ _ Hm).
  - intros H. split.
    + apply first_raise_none. intros name Hin.
      now apply get_relation_exists, H.
    + apply filter_none. intros name Hin.
      now apply relation_missing_false, H.
Qed.

Lemma found_ready_error (self : Orc8rBase) (w : World) :
  (forall name, name ∈ required_relations self ->
                is_Some (model_get_relation w !! name)) ->
  ready_error self w = None.
Proof.
  intros H. apply first_raise_none. intros name Hin.
  now apply get_relation_exists, H.
Qed.

Lemma _configure_workload_run (self : Orc8rBase) (w : World) :
  _configure_workload self w
  = (configure_workload_outcome self w, configure_workload_world self w,
     configure_workload_log self w).
Proof.
  unfold _configure_workload, configure_workload_outcome,
    configure_workload_world, configure_workload_log.
  unfold bind at 1. rewrite _relations_created_run.
  destruct (created_error self w) as [e|] eqn:Ee; [reflexivity|].
  destruct (missing_relations self w) as [|m ms] eqn:Em.
  - cbn [negb]. unfold bind at 1. rewrite _relations_ready_run.
    rewrite (found_ready_error self w)
      by (apply all_found; split; assumption).
    destruct (unready_relations self w) as [|u us].
    + cbn [negb]. rewrite _configure_charm_run. reflexivity.
    + cbn [negb]. unfold defer, perform. cbn [id].
      now rewrite <- app_assoc.
  - cbn [negb]. unfold defer, perform. cbn [id].
    now rewrite <- app_assoc.
Qed.

Lemma _on_relation_joined_run (self : Orc8rBase) (event_relation : nat)
    (w : World) :
  _on_relation_joined self event_relation w
  = (Return tt, relation_joined_world self event_relation w,
     relation_joined_log self event_relation w).
Proof.
  unfold _on_relation_joined, relation_joined_world, relation_joined_log.
  unfold bind at 1. unfold is_leader, observe.
  destruct (leader w); cbn [negb]; [|reflexivity].
  unfold bind at 1. rewrite _service_is_running_run.
  unfold bind at 1.
  unfold _update_relation_active_status, own_data_update, perform.
  unfold bind at 1. rewrite _service_is_running_run.
  rewrite service_running_with_own_data.
  replace (service_probe_log self (with_own_data _ _ _ w))
    with (service_probe_log self w) by reflexivity.
  destruct (service_running self w); cbn [negb];
    unfold defer, perform, ret; cbn [id]; reflexivity.
Qed.

(** ** Reading logs *)

Lemma filter_app_log (p : Effect -> bool) (a b : list Effect) :
  List.filter p (a ++ b) = List.filter p a ++ List.filter p b.
Proof.
  induction a as [|e a IH]; [reflexivity|].
  cbn. destruct (p e); cbn; now rewrite IH.
Qed.

Lemma commands_app (a b : list Effect) :
  commands (a ++ b) = commands a ++ commands b.
Proof. apply filter_app_log. Qed.

Lemma count_app (p : Effect -> bool) (a b : list Effect) :
  count p (a ++ b) = count p a + count p b.
Proof. unfold count. now rewrite filter_app_log, length_app. Qed.

Lemma filter_filter_log (p q : Effect -> bool) (log : list Effect) :
  (forall e, p e = true -> q e = true) ->
  List.filter p (List.filter q log) = List.filter p log.
Proof.
  intros Hpq. induction log as [|e log IH]; [reflexivity|].
  cbn. destruct (q e) eqn:Eq; cbn; destruct (p e) eqn:Ep; cbn;
    rewrite ?IH; try reflexivity.
  apply Hpq in Ep. congruence.
Qed.

Lemma count_commands (p : Effect -> bool) (log : list Effect) :
  (forall e, p e = true -> is_command e = true) ->
  count p log = count p (commands log).
Proof.
  intros Hp. unfold count, commands. now rewrite filter_filter_log.
Qed.

Lemma filter_commands (p : Effect -> bool) (log : list Effect) :
  (forall e, p e = true -> is_command e = true) ->
  List.filter p log = List.filter p (commands log).
Proof. intros Hp. unfold commands. now rewrite filter_filter_log. Qed.

Lemma filter_concat_none {A} (p : Effect -> bool) (f : A -> list Effect)
    (l : list A) :
  (forall x, List.filter p (f x) = []) ->
  List.filter p (concat (List.map f l)) = [].
Proof.
  intros Hf. induction l as [|x l IH]; [reflexivity|].
  cbn. now rewrite filter_app_log, Hf, IH.
Qed.

Lemma concat_singletons {A B} (f : A -> B) (l : list A) :
  concat (List.map (fun x => [f x]) l) = List.map f l.
Proof. induction l as [|x l IH]; [reflexivity|]. cbn. now rewrite IH. Qed.

Lemma created_log_map (self : Orc8rBase) (w : World) :
  created_error self w = None ->
  created_log self w = List.map EGetRelation (required_relations self).
Proof.
  intros He. unfold created_log. unfold created_error in He.
  rewrite (reached_all _ _ He). apply concat_singletons.
Qed.

Lemma commands_created_log (self : Orc8rBase) (w : World) :
  commands (created_log self w) = [].
Proof. apply filter_concat_none. reflexivity. Qed.

Lemma commands_relation_active_log (w : World) (name : string) :
  commands (relation_active_log w name) = [].
Proof.
  unfold relation_active_log.
  destruct (inspected_unit w name) as [[id unit]|]; reflexivity.
Qed.

Lemma commands_ready_log (self : Orc8rBase) (w : World) :
  commands (ready_log self w) = [].
Proof. apply filter_concat_none. apply commands_relation_active_log. Qed.

Lemma commands_service_probe_log (self : Orc8rBase) (w : World) :
  commands (service_probe_log self w) = [].
Proof. unfold service_probe_log. destruct (connectable w); reflexivity. Qed.

Lemma commands_publish_log (self : Orc8rBase) (w : World) (ids : list nat) :
  commands (publish_log self w ids)
  = List.map
      (fun id => EUpdateData id "active" (str_of_bool (service_running self w)))
      ids.
Proof.
  unfold publish_log. induction ids as [|id ids IH]; [reflexivity|].
  cbn [List.map concat]. rewrite !commands_app, commands_service_probe_log, IH.
  reflexivity.
Qed.

Lemma commands_update_relations_log (self : Orc8rBase) (w : World) :
  commands (update_relations_log self w) = published self w.
Proof.
  unfold update_relations_log, published.
  destruct (leader w); [|reflexivity].
  unfold commands. cbn [List.filter is_command].
  apply commands_publish_log.
Qed.

Lemma commands_conclude_log (o : outcome unit) :
  commands (conclude_log o) = conclude_log o.
Proof. destruct o; reflexivity. Qed.

Lemma commands_configure_charm_log (self : Orc8rBase) (w : World) :
  commands (configure_charm_log self w)
  = if connectable w then
      ESetStatus (MaintenanceStatus "Configuring pod")
      :: (if bool_decide (plan w ≠ services (_pebble_layer self))
          then [EAddLayer (container_name self) (_pebble_layer self) true;
                ERestart (service_name self);
                ELogInfo ("Restarted container " +:+ service_name self)]
               ++ published self (layered self w)
          else [])
      ++ conclude_log (configure_charm_outcome self w)
    else [ESetStatus (WaitingStatus "Waiting for container to be ready...");
          EDefer].
Proof.
  unfold configure_charm_log.
  destruct (connectable w); [|reflexivity].
  rewrite !commands_app, commands_conclude_log.
  destruct (bool_decide _); [|reflexivity].
  rewrite commands_app, commands_update_relations_log. reflexivity.
Qed.

Lemma commands_configure_workload_log (self : Orc8rBase) (w : World) :
  commands (configure_workload_log self w)
  = match created_error self w with
    | Some _ => []
    | None =>
        match missing_relations self w with
        | [] =>
            match unready_relations self w with
            | [] => commands (configure_charm_log self w)
            | names =>
                [ESetStatus (WaitingStatus (ready_message names)); EDefer]
            end
        | names => [ESetStatus (BlockedStatus (created_message names)); EDefer]
        end
    end.
Proof.
  unfold configure_workload_log.
  destruct (created_error self w); [apply commands_created_log|].
  destruct (missing_relations self w).
  - rewrite commands_app, commands_created_log.
    destruct (unready_relations self w);
      now rewrite commands_app, commands_ready_log.
  - now rewrite commands_app, commands_created_log.
Qed.

Lemma count_published (p : Effect -> bool) (self : Orc8rBase) (w : World) :
  (forall id key value, p (EUpdateData id key value) = false) ->
  count p (published self w) = 0.
Proof.
  intros Hp. unfold published, count.
  destruct (leader w); [|reflexivity].
  induction (own_relations self w) as [|id ids IH]; [reflexivity|].
  cbn. now rewrite Hp.
Qed.

Lemma filter_published_none (p : Effect -> bool) (self : Orc8rBase)
    (w : World) :
  (forall id key value, p (EUpdateData id key value) = false) ->
  List.filter p (published self w) = [].
Proof.
  intros Hp. apply length_zero_iff_nil. now apply (count_published p).
Qed.

Lemma filter_published (self : Orc8rBase) (w : World) :
  List.filter is_update_data (published self w) = published self w.
Proof.
  unfold published. destruct (leader w); [|reflexivity].
  induction (own_relations self w) as [|id ids IH]; [reflexivity|].
  cbn. now rewrite IH.
Qed.



Lemma commands_relation_joined_log (self : Orc8rBase) (event_relation : nat)
    (w : World) :
  commands (relation_joined_log self event_relation w)
  = if leader w
    then EUpdateData event_relation "active"
           (str_of_bool (service_running self w))
         :: (if service_running self w then [] else [EDefer])
    else [].
Proof.
  unfold relation_joined_log. destruct (leader w); [|reflexivity].
  pose proof (commands_service_probe_log self w) as Hprobe.
  unfold commands in *. cbn [List.filter is_command].
  rewrite !filter_app_log, !Hprobe.
  destruct (service_running self w); reflexivity.
Qed.

Lemma count_reads_relation_active (w : World) (name : string) :
  count is_read_data (relation_active_log w name) <= 1.
Proof.
  unfold relation_active_log.
  destruct (inspected_unit w name) as [[id unit]|]; cbn; lia.
Qed.

Lemma reached_length {A} (error : A -> option exn) (l : list A) :
  length (reached error l) <= length l.
Proof.
  induction l as [|x l IH]; cbn; [lia|].
  destruct (error x); cbn; lia.
Qed.

Lemma count_reads_logs (w : World) (names : list string) :
  count is_read_data (concat (List.map (relation_active_log w) names))
  <= length names.
Proof.
  induction names as [|name names IH]; [cbn; lia|].
  cbn [List.map concat length]. rewrite count_app.
  pose proof (count_reads_relation_active w name). lia.
Qed.

Lemma count_reads_ready_log (self : Orc8rBase) (w : World) :
  count is_read_data (ready_log self w) <= length (required_relations self).
Proof.
  unfold ready_log.
  pose proof (reached_length (relation_active_error w)
                (required_relations self)) as Hlen.
  pose proof (count_reads_logs w
                (reached (relation_active_error w) (required_relations self)))
    as Hreads.
  lia.
Qed.

(** ** Pebble's layers *)

Lemma render_app (a b : Layers) : render (a ++ b) = render b ∪ render a.
Proof.
  induction a as [|layer a IH]; cbn.
  - now rewrite (right_id_L ∅ (∪)).
  - rewrite IH. now rewrite (assoc_L (∪)).
Qed.

Lemma render_lookup_None (ls : Layers) (name : string) :
  render ls !! name = None
  <-> forall label entries, (label, entries) ∈ ls -> entries !! name = None.
Proof.
  induction ls as [|[l e] ls IH]; cbn.
  - split; [|intros _; apply lookup_empty].
    intros _ label entries Hin. now apply not_elem_of_nil in Hin.
  - rewrite lookup_union_None, IH. split.
    + intros [H1 H2] label entries Hin.
      apply elem_of_cons in Hin as [Heq|Hin]; [|eauto].
      now injection Heq as -> ->.
    + intros H. split; [|apply (H l); left].
      intros label entries Hin. apply (H label). now right.
Qed.

Lemma render_lookup_defined (ls : Layers) (label name : string)
    (entries : gmap string Service) :
  (label, entries) ∈ ls -> is_Some (entries !! name) ->
  is_Some (render ls !! name).
Proof.
  intros Hin Hsome.
  destruct (render ls !! name) as [s|] eqn:E; [eauto|].
  rewrite (proj1 (render_lookup_None ls name) E label entries Hin) in Hsome.
  now destruct Hsome.
Qed.

Lemma lookup_union_left_None {A} (m1 m2 : gmap string A) (name : string) :
  m1 !! name = None -> (m1 ∪ m2) !! name = m2 !! name.
Proof. intros H. rewrite lookup_union, H. now destruct (m2 !! name). Qed.

Lemma lookup_union_right_None {A} (m1 m2 : gmap string A) (name : string) :
  m2 !! name = None -> (m1 ∪ m2) !! name = m1 !! name.
Proof. intros H. rewrite lookup_union, H. now destruct (m1 !! name). Qed.

Lemma combine_layer_None (label : string) (added : gmap string Service)
    (ls : Layers) :
  combine_layer label added ls = None <-> label ∉ ls.*1.
Proof.
  induction ls as [|[l e] ls IH]; cbn.
  - split; [intros _; apply not_elem_of_nil | reflexivity].
  - destruct (decide (l = label)) as [->|Hne].
    + split; [discriminate|]. intros H. destruct H. left.
    + rewrite not_elem_of_cons.
      destruct (combine_layer label added ls); cbn.
      * split; [discriminate|]. intros [_ H]. now apply IH in H.
      * split; [|reflexivity]. intros _. split; [congruence | now apply IH].
Qed.

Lemma render_combine_other (label name : string)
    (added : gmap string Service) (ls ls' : Layers) :
  combine_layer label added ls = Some ls' ->
  added !! name = None ->
  render ls' !! name = render ls !! name.
Proof.
  revert ls'. induction ls as [|[l e] ls IH]; intros ls' H Hn; cbn in H;
    [discriminate|].
  destruct (decide (l = label)) as [->|Hne].
  - injection H as <-. cbn.
    rewrite (lookup_union (render ls) (added ∪ e)),
      (lookup_union (render ls) e).
    now rewrite (lookup_union_left_None added e name Hn).
  - destruct (combine_layer label added ls) as [ls0|]; [|discriminate].
    cbn in H. injection H as <-. cbn.
    rewrite !lookup_union. now rewrite (IH ls0 eq_refl Hn).
Qed.

Lemma render_insert_other (label name : string)
    (added : gmap string Service) (position : nat) (ls : Layers) :
  added !! name = None ->
  render (insert_layer label added position ls) !! name = render ls !! name.
Proof.
  intros Hn. unfold insert_layer.
  rewrite <- (take_drop position ls) at 3.
  rewrite !render_app. cbn.
  rewrite (lookup_union (render (drop position ls) ∪ added)),
    (lookup_union (render (drop position ls)) (render (take position ls))).
  now rewrite (lookup_union_right_None _ added name Hn).
Qed.

Lemma combine_layer_elem (label : string) (added : gmap string Service)
    (ls ls' : Layers) :
  combine_layer label added ls = Some ls' ->
  exists entries, (label, added ∪ entries) ∈ ls'.
Proof.
  revert ls'. induction ls as [|[l e] ls IH]; intros ls' H; cbn in H;
    [discriminate|].
  destruct (decide (l = label)) as [->|Hne].
  - injection H as <-. exists e. left.
  - destruct (combine_layer label added ls) as [ls0|]; [|discriminate].
    cbn in H. injection H as <-.
    destruct (IH ls0 eq_refl) as [entries Hin].
    exists entries. now right.
Qed.

Lemma insert_layer_elem (label : string) (added : gmap string Service)
    (position : nat) (ls : Layers) :
  (label, added) ∈ insert_layer label added position ls.
Proof. unfold insert_layer. apply elem_of_app. right. left. Qed.


Lemma render_insert_fresh (label name : string)
    (added : gmap string Service) (position : nat) (ls : Layers) :
  render ls !! name = None ->
  render (insert_layer label added position ls) !! name = added !! name.
Proof.
  intros Hn. unfold insert_layer.
  rewrite <- (take_drop position ls) in Hn.
  rewrite render_app in Hn. apply lookup_union_None in Hn as [Hd Ht].
  rewrite render_app. cbn.
  rewrite (lookup_union_right_None _ _ _ Ht).
  now rewrite (lookup_union_left_None _ _ _ Hd).
Qed.

(** Where the labels are distinct and only the layer of the label defines
    the name, the entry added is the one rendered. *)
Lemma render_combine_unrivalled (label name : string)
    (added : gmap string Service) (ls ls' : Layers) (entry : Service) :
  combine_layer label added ls = Some ls' ->
  NoDup ls.*1 ->
  (forall l e, (l, e) ∈ ls -> l <> label -> e !! name = None) ->
  added !! name = Some entry ->
  render ls' !! name = Some entry.
Proof.
  revert ls'. induction ls as [|[l e] ls IH]; intros ls' H Hnd Hothers Ha;
    cbn in H; [discriminate|].
  cbn in Hnd. apply NoDup_cons in Hnd as [Hfresh Hnd].
  destruct (decide (l = label)) as [->|Hne].
  - injection H as <-. cbn.
    assert (Hls : render ls !! name = None).
    { apply render_lookup_None. intros l' e' Hin.
      apply (Hothers l' e'); [now right|].
      intros ->. apply Hfresh.
      apply list_elem_of_fmap. now exists (label, e'). }
    rewrite (lookup_union_left_None _ _ _ Hls).
    now apply lookup_union_Some_l.
  - destruct (combine_layer label added ls) as [ls0|]; [|discriminate].
    cbn in H. injection H as <-. cbn.
    rewrite (lookup_union_right_None _ e);
      [|apply (Hothers l e); [left | exact Hne]].
    apply IH; [reflexivity | exact Hnd | | exact Ha].
    intros l' e' Hin. apply Hothers. now right.
Qed.

(** ** What a handler leaves untouched *)

Lemma same_counterparts_refl (w : World) : same_counterparts w w.
Proof. split; [reflexivity | intros id; split; reflexivity]. Qed.

Lemma same_counterparts_trans (w1 w2 w3 : World) :
  same_counterparts w1 w2 -> same_counterparts w2 w3 ->
  same_counterparts w1 w3.
Proof.
  intros [H1 H1'] [H2 H2']. split; [congruence|].
  intros id. destruct (H1' id), (H2' id). split; congruence.
Qed.

Lemma same_counterparts_with_own_data (id : nat) (key value : string)
    (w : World) :
  same_counterparts w (with_own_data id key value w).
Proof.
  split; [reflexivity|]. intros j. cbn.
  destruct (decide (j = id)) as [->|]; split; reflexivity.
Qed.

Lemma same_counterparts_publish (value : string) (ids : list nat) (w : World) :
  same_counterparts w (publish value ids w).
Proof.
  revert w. induction ids as [|id ids IH]; intros w.
  - apply same_counterparts_refl.
  - cbn [publish fold_left].
    eapply same_counterparts_trans;
      [apply same_counterparts_with_own_data | apply IH].
Qed.

Lemma same_counterparts_fields (w w' : World) :
  model_relations w' = model_relations w ->
  relation w' = relation w ->
  same_counterparts w w'.
Proof. intros Hget Hrel. split; [exact Hget|]. intros id. now rewrite Hrel. Qed.

Lemma same_model_get_relation (w w' : World) :
  model_relations w' = model_relations w ->
  model_get_relation w' = model_get_relation w.
Proof. unfold model_get_relation. now intros ->. Qed.

Lemma publish_host (value : string) (ids : list nat) (w : World) :
  leader (publish value ids w) = leader w
  /\ connectable (publish value ids w) = connectable w
  /\ plan (publish value ids w) = plan w
  /\ model_relations (publish value ids w) = model_relations w
  /\ status (publish value ids w) = status w.
Proof.
  revert w. induction ids as [|id ids IH]; intros w; [repeat split|].
  cbn [publish fold_left]. apply (IH (with_own_data id "active" value w)).
Qed.

Lemma publish_layers (value : string) (ids : list nat) (w : World) :
  layers (publish value ids w) = layers w
  /\ new_layer_position (publish value ids w) = new_layer_position w.
Proof.
  revert w. induction ids as [|id ids IH]; intros w; [repeat split|].
  cbn [publish fold_left]. apply (IH (with_own_data id "active" value w)).
Qed.

Lemma publish_model (value : string) (ids : list nat) (w : World) :
  model_get_relation (publish value ids w) = model_get_relation w.
Proof. apply same_model_get_relation, publish_host. Qed.

Lemma publish_counterparts (value : string) (ids : list nat) (w : World)
    (id : nat) :
  units (relation (publish value ids w) id) = units (relation w id)
  /\ data (relation (publish value ids w) id) = data (relation w id).
Proof.
  destruct (same_counterparts_publish value ids w) as [_ Hsame].
  apply Hsame.
Qed.

Lemma own_data_written (id : nat) (key value : string) (w : World) :
  own_data (relation (with_own_data id key value w) id) !! key = Some value.
Proof.
  cbn. destruct (decide (id = id)); [|contradiction].
  cbn. unfold update. apply lookup_union_Some_l. apply lookup_singleton_eq.
Qed.

Lemma own_data_kept (id j : nat) (key value other : string) (w : World) :
  other <> key ->
  own_data (relation (with_own_data id key value w) j) !! other
  = own_data (relation w j) !! other.
Proof.
  intros Hne. cbn. destruct (decide (j = id)) as [->|]; [|reflexivity].
  cbn. unfold update. rewrite lookup_union_r; [reflexivity|].
  now apply lookup_singleton_ne.
Qed.

Lemma with_own_data_other (id j : nat) (key value : string) (w : World) :
  j <> id -> relation (with_own_data id key value w) j = relation w j.
Proof.
  intros Hne. cbn. destruct (decide (j = id)); [contradiction | reflexivity].
Qed.

Lemma with_own_data_twice (id j : nat) (key value first : string) (w : World) :
  relation (with_own_data id key value (with_own_data id key first w)) j
  = relation (with_own_data id key value w) j.
Proof.
  cbn. destruct (decide (j = id)) as [->|]; [|reflexivity].
  destruct (decide (id = id)); [|contradiction].
  cbn. f_equal. unfold update. apply map_eq. intros k.
  destruct (decide (k = key)) as [->|Hne].
  - rewrite !(lookup_union_Some_l _ _ _ value); try apply lookup_singleton_eq.
    reflexivity.
  - rewrite !lookup_union_r by now apply lookup_singleton_ne.
    reflexivity.
Qed.

Lemma publish_other (value : string) (ids : list nat) (w : World) (id : nat) :
  id ∉ ids -> relation (publish value ids w) id = relation w id.
Proof.
  revert w. induction ids as [|j ids IH]; intros w Hnot; [reflexivity|].
  cbn [publish fold_left].
  apply not_elem_of_cons in Hnot as [Hne Hnot].
  change (relation (publish value ids (with_own_data j "active" value w)) id
          = relation w id).
  rewrite IH by assumption. cbn.
  destruct (decide (id = j)); [contradiction | reflexivity].
Qed.

Lemma publish_written (value : string) (ids : list nat) (w : World) (id : nat) :
  id ∈ ids ->
  own_data (relation (publish value ids w) id) !! "active" = Some value.
Proof.
  revert w. induction ids as [|j ids IH]; intros w Hin;
    [now apply not_elem_of_nil in Hin|].
  change (own_data
            (relation (publish value ids (with_own_data j "active" value w)) id)
            !! "active" = Some value).
  destruct (decide (id ∈ ids)) as [Hrest|Hrest]; [now apply IH|].
  rewrite publish_other by assumption.
  apply elem_of_cons in Hin as [->|Hin]; [|contradiction].
  apply own_data_written.
Qed.

Lemma publish_kept (value other : string) (ids : list nat) (w : World)
    (j : nat) :
  other <> "active" ->
  own_data (relation (publish value ids w) j) !! other
  = own_data (relation w j) !! other.
Proof.
  intros Hne. revert w. induction ids as [|id ids IH]; intros w; [reflexivity|].
  change (own_data
            (relation (publish value ids (with_own_data id "active" value w)) j)
            !! other = own_data (relation w j) !! other).
  rewrite IH. now apply own_data_kept.
Qed.

Lemma inspected_unit_same (w w' : World) (name : string) :
  same_counterparts w w' -> inspected_unit w' name = inspected_unit w name.
Proof.
  intros [Hget Hrel]. unfold inspected_unit.
  rewrite (same_model_get_relation w w' Hget).
  destruct (model_get_relation w !! name) as [id|]; [|reflexivity].
  now destruct (Hrel id) as [-> _].
Qed.

Lemma relation_ready_same (w w' : World) (name : string) :
  same_counterparts w w' -> relation_ready w' name = relation_ready w name.
Proof.
  intros Hsame. unfold relation_ready, observed_signal.
  rewrite (inspected_unit_same w w' name Hsame).
  destruct (inspected_unit w name) as [[id unit]|]; [|reflexivity].
  destruct Hsame as [_ Hrel]. now destruct (Hrel id) as [_ ->].
Qed.

Lemma checks_same (self : Orc8rBase) (w w' : World) :
  same_counterparts w w' ->
  missing_relations self w' = missing_relations self w
  /\ unready_relations self w' = unready_relations self w
  /\ ready_log self w' = ready_log self w
  /\ created_error self w' = created_error self w
  /\ created_log self w' = created_log self w.
Proof.
  intros Hsame.
  assert (Herr : get_relation_error w' = get_relation_error w).
  { unfold get_relation_error, get_relation_outcome.
    destruct Hsame as [-> _]. reflexivity. }
  assert (Hact : relation_active_error w' = relation_active_error w).
  { unfold relation_active_error. now rewrite Herr. }
  split; [|split; [|split; [|split]]].
  - unfold missing_relations, relation_missing.
    destruct Hsame as [Hget _].
    now rewrite (same_model_get_relation w w' Hget).
  - apply filter_ext_in. intros name _.
    now rewrite (relation_ready_same w w').
  - unfold ready_log. rewrite Hact. f_equal. apply map_ext. intros name.
    unfold relation_active_log.
    now rewrite (inspected_unit_same w w' name Hsame).
  - unfold created_error. now rewrite Herr.
  - unfold created_log. now rewrite Herr.
Qed.

Lemma update_relations_world_host (self : Orc8rBase) (w : World) :
  same_counterparts w (update_relations_world self w)
  /\ leader (update_relations_world self w) = leader w
  /\ connectable (update_relations_world self w) = connectable w
  /\ plan (update_relations_world self w) = plan w
  /\ status (update_relations_world self w) = status w.
Proof.
  unfold update_relations_world. destruct (leader w) eqn:El.
  - split; [apply same_counterparts_publish|].
    destruct (publish_host (str_of_bool (service_running self w))
                (own_relations self w) w) as (H1 & H2 & H3 & _ & H5).
    rewrite H1, H2, H3, H5. auto.
  - split; [apply same_counterparts_refl | auto].
Qed.

Lemma update_relations_world_frame (self : Orc8rBase) (w : World) :
  model_get_relation (update_relations_world self w) = model_get_relation w
  /\ model_relations (update_relations_world self w) = model_relations w
  /\ layers (update_relations_world self w) = layers w
  /\ forall id,
       (forall key, key <> "active" ->
          own_data (relation (update_relations_world self w) id) !! key
          = own_data (relation w id) !! key)
       /\ (id ∉ own_relations self w ->
           relation (update_relations_world self w) id = relation w id)
       /\ (leader w = false ->
           relation (update_relations_world self w) id = relation w id)
       /\ (own_data (relation (update_relations_world self w) id) !! "active"
           = own_data (relation w id) !! "active"
           \/ own_data (relation (update_relations_world self w) id) !! "active"
              = Some (str_of_bool (service_running self w))).
Proof.
  unfold update_relations_world. destruct (leader w).
  - split; [apply publish_model|].
    split; [apply publish_host|].
    split; [apply publish_layers|].
    intros id.
    split; [intros key Hne; now apply publish_kept|].
    split; [intros Hnot; now apply publish_other|].
    split; [discriminate|].
    destruct (decide (id ∈ own_relations self w)) as [Hin|Hnot].
    + right. now apply publish_written.
    + left. now rewrite publish_other.
  - repeat split. now left.
Qed.

Lemma conclude_fields (o : outcome unit) (x : World) :
  leader (conclude o x) = leader x
  /\ connectable (conclude o x) = connectable x
  /\ plan (conclude o x) = plan x
  /\ model_get_relation (conclude o x) = model_get_relation x
  /\ model_relations (conclude o x) = model_relations x
  /\ relation (conclude o x) = relation x.
Proof. destruct o; repeat split. Qed.

Lemma same_counterparts_configure_charm (self : Orc8rBase) (w : World) :
  same_counterparts w (configure_charm_world self w).
Proof.
  unfold configure_charm_world.
  destruct (connectable w);
    [|now apply same_counterparts_fields].
  assert (Hbody :
            same_counterparts w
              (if bool_decide (plan w ≠ services (_pebble_layer self))
               then update_relations_world self (layered self w)
               else with_status (MaintenanceStatus "Configuring pod") w)).
  { destruct (bool_decide _); [|now apply same_counterparts_fields].
    destruct (update_relations_world_host self (layered self w)) as [Hsame _].
    apply (same_counterparts_trans _ (layered self w));
      [now apply same_counterparts_fields | exact Hsame]. }
  destruct (configure_charm_outcome self w); cbn [conclude]; [|exact Hbody].
  apply (same_counterparts_trans _ _ _ Hbody).
  now apply same_counterparts_fields.
Qed.

(** ** The layer and the checks before it *)

Lemma environment_variables_lookup (self : Orc8rBase) :
  _environment_variables self !! "SERVICE_HOSTNAME"
  = Some (container_name self)
  /\ _environment_variables self !! "SERVICE_REGISTRY_MODE" = Some "k8s"
  /\ _environment_variables self !! "SERVICE_REGISTRY_NAMESPACE"
     = Some (model_name (charm self))
  /\ forall key,
       key <> "SERVICE_HOSTNAME" ->
       key <> "SERVICE_REGISTRY_MODE" ->
       key <> "SERVICE_REGISTRY_NAMESPACE" ->
       _environment_variables self !! key
       = additional_environment_variables self !! key.
Proof.
  unfold _environment_variables, update, namespace.
  repeat split.
  - apply lookup_union_Some_l. apply lookup_insert_eq.
  - apply lookup_union_Some_l. rewrite lookup_insert_ne by discriminate.
    apply lookup_insert_eq.
  - apply lookup_union_Some_l. rewrite !lookup_insert_ne by discriminate.
    apply lookup_insert_eq.
  - intros key H1 H2 H3. rewrite lookup_union_r.
    + rewrite lookup_union_l by apply lookup_empty. reflexivity.
    + rewrite !lookup_insert_ne by congruence. apply lookup_empty.
Qed.

Lemma pebble_layer_service (self : Orc8rBase) :
  services (_pebble_layer self) !! service_name self
  = Some {| override := "replace";
            summary := service_name self;
            startup := "enabled";
            command := startup_command self;
            environment := _environment_variables self |}.
Proof. apply lookup_singleton_eq. Qed.

Lemma pebble_layer_other (self : Orc8rBase) (name : string) :
  name <> service_name self -> services (_pebble_layer self) !! name = None.
Proof. intros Hne. apply lookup_singleton_ne. congruence. Qed.

(** The layers of the container once the layer is applied: the layer of the
    container's label holds the computed entry. *)
Lemma layered_holds (self : Orc8rBase) (w : World) :
  exists entries,
    (container_name self, entries) ∈ layers (layered self w)
    /\ entries !! service_name self
       = services (_pebble_layer self) !! service_name self.
Proof.
  cbn [layers layered with_layers]. unfold added_layers.
  change (layers (with_status (MaintenanceStatus "Configuring pod") w))
    with (layers w).
  destruct (combine_layer (container_name self) (services (_pebble_layer self))
              (layers w)) as [ls'|] eqn:E.
  - destruct (combine_layer_elem _ _ _ _ E) as [entries Hin].
    exists (services (_pebble_layer self) ∪ entries). split; [exact Hin|].
    rewrite pebble_layer_service.
    apply lookup_union_Some_l, pebble_layer_service.
  - eexists. split; [apply insert_layer_elem | reflexivity].
Qed.

Lemma layered_other (self : Orc8rBase) (w : World) (name : string) :
  name <> service_name self ->
  plan (layered self w) !! name = plan w !! name.
Proof.
  intros Hne. unfold plan. cbn [layers layered with_layers].
  unfold added_layers.
  change (layers (with_status (MaintenanceStatus "Configuring pod") w))
    with (layers w).
  destruct (combine_layer (container_name self) (services (_pebble_layer self))
              (layers w)) as [ls'|] eqn:E.
  - apply (render_combine_other _ _ _ _ _ E). now apply pebble_layer_other.
  - apply render_insert_other. now apply pebble_layer_other.
Qed.

Lemma layered_defined (self : Orc8rBase) (w : World) :
  is_Some (plan (layered self w) !! service_name self).
Proof.
  destruct (layered_holds self w) as (entries & Hin & Hentry).
  apply (render_lookup_defined _ (container_name self) _ entries Hin).
  rewrite Hentry, pebble_layer_service. eauto.
Qed.

Lemma layered_registered (self : Orc8rBase) (w : World) :
  connectable w = true -> service_running self (layered self w) = true.
Proof.
  intros Hc. unfold service_running, service_registered.
  change (connectable (layered self w)) with (connectable w).
  rewrite Hc. apply bool_decide_eq_true_2. apply layered_defined.
Qed.

(** In a container where nothing stands in the way, the plan renders the
    computed entry once the layer is applied. *)
Lemma layered_unrivalled (self : Orc8rBase) (w : World) :
  unrivalled self w ->
  plan (layered self w) !! service_name self
  = services (_pebble_layer self) !! service_name self.
Proof.
  intros [Hnd Hothers]. unfold plan. cbn [layers layered with_layers].
  unfold added_layers.
  change (layers (with_status (MaintenanceStatus "Configuring pod") w))
    with (layers w).
  change (new_layer_position
            (with_status (MaintenanceStatus "Configuring pod") w))
    with (new_layer_position w).
  destruct (combine_layer (container_name self) (services (_pebble_layer self))
              (layers w)) as [ls'|] eqn:E.
  - rewrite pebble_layer_service.
    apply (render_combine_unrivalled _ _ _ _ _ _ E Hnd Hothers).
    apply pebble_layer_service.
  - apply render_insert_fresh. apply render_lookup_None.
    intros label entries Hin. apply (Hothers label entries Hin).
    intros ->. apply combine_layer_None in E. apply E.
    apply list_elem_of_fmap. now exists (container_name self, entries).
Qed.


Lemma plan_is_layer (self : Orc8rBase) (p : gmap string Service) :
  p !! service_name self = services (_pebble_layer self) !! service_name self ->
  (forall name, name <> service_name self -> p !! name = None) ->
  p = services (_pebble_layer self).
Proof.
  intros Hentry Honly. apply map_eq. intros name.
  destruct (decide (name = service_name self)) as [->|Hne]; [exact Hentry|].
  rewrite Honly by assumption. symmetry. now apply pebble_layer_other.
Qed.

Lemma layered_plan (self : Orc8rBase) (w : World) :
  unrivalled self w ->
  (forall name, name <> service_name self -> plan w !! name = None) ->
  plan (layered self w) = services (_pebble_layer self).
Proof.
  intros Hun Honly. apply plan_is_layer; [now apply layered_unrivalled|].
  intros name Hne. rewrite layered_other by assumption. now apply Honly.
Qed.


Lemma configure_charm_completes (self : Orc8rBase) (w : World) :
  (leader w = true -> provides_own_relation self w) ->
  configure_charm_outcome self w = Return tt.
Proof.
  intros Hprovides.
  unfold configure_charm_outcome, update_relations_outcome.
  destruct (connectable w); [|reflexivity].
  destruct (bool_decide _); [|reflexivity].
  change (leader (layered self w)) with (leader w).
  change (model_relations (layered self w)) with (model_relations w).
  destruct (leader w); [|reflexivity].
  destruct (Hprovides eq_refl) as [ids ->]. reflexivity.
Qed.

Lemma configure_charm_reconfigured (self : Orc8rBase) (w : World) :
  configure_charm_outcome self w = Return tt ->
  connectable w = true ->
  plan w <> services (_pebble_layer self) ->
  configure_charm_world self w
  = with_status ActiveStatus (update_relations_world self (layered self w))
  /\ commands (configure_charm_log self w)
     = [ESetStatus (MaintenanceStatus "Configuring pod");
        EAddLayer (container_name self) (_pebble_layer self) true;
        ERestart (service_name self);
        ELogInfo ("Restarted container " +:+ service_name self)]
       ++ (if leader w
           then List.map (fun id => EUpdateData id "active" "True")
                  (own_relations self w)
           else [])
       ++ [ESetStatus ActiveStatus].
Proof.
  intros Hout Hc Hdiff.
  unfold configure_charm_world.
  rewrite commands_configure_charm_log, Hout, Hc.
  rewrite bool_decide_eq_true_2 by assumption.
  split; [reflexivity|].
  unfold published. rewrite (layered_registered self w Hc). reflexivity.
Qed.

Lemma configure_charm_unchanged (self : Orc8rBase) (w : World) :
  connectable w = true ->
  plan w = services (_pebble_layer self) ->
  configure_charm_world self w
  = with_status ActiveStatus
      (with_status (MaintenanceStatus "Configuring pod") w)
  /\ commands (configure_charm_log self w)
     = [ESetStatus (MaintenanceStatus "Configuring pod");
        ESetStatus ActiveStatus]
  /\ configure_charm_outcome self w = Return tt.
Proof.
  intros Hc Hsame.
  assert (Hout : configure_charm_outcome self w = Return tt).
  { unfold configure_charm_outcome. rewrite Hc.
    now rewrite bool_decide_eq_false_2 by (intros H; now apply H). }
  unfold configure_charm_world.
  rewrite commands_configure_charm_log, Hout, Hc.
  rewrite bool_decide_eq_false_2 by (intros H; now apply H).
  repeat split.
Qed.

Lemma configure_charm_status (self : Orc8rBase) (w : World) :
  status (configure_charm_world self w)
  = if connectable w then
      match configure_charm_outcome self w with
      | Return _ => ActiveStatus
      | Raise _ => MaintenanceStatus "Configuring pod"
      end
    else WaitingStatus "Waiting for container to be ready...".
Proof.
  unfold configure_charm_world.
  destruct (connectable w); [|reflexivity].
  destruct (configure_charm_outcome self w); cbn [conclude]; [reflexivity|].
  destruct (bool_decide (plan w ≠ services (_pebble_layer self)));
    [|reflexivity].
  now destruct (update_relations_world_host self (layered self w))
    as (_ & _ & _ & _ & ->).
Qed.

Lemma configure_charm_raises (self : Orc8rBase) (w : World) (e : exn) :
  configure_charm_outcome self w = Raise e ->
  e = KeyError /\ applies self w = true /\ leader w = true
  /\ model_relations w !! meta_name (charm self) = None.
Proof.
  unfold configure_charm_outcome, update_relations_outcome, applies.
  change (leader (layered self w)) with (leader w).
  change (model_relations (layered self w)) with (model_relations w).
  destruct (connectable w); [|discriminate].
  destruct (bool_decide (plan w ≠ services (_pebble_layer self)));
    [|discriminate].
  destruct (leader w); [|discriminate].
  destruct (model_relations w !! meta_name (charm self)); [discriminate|].
  intros H. injection H as <-. repeat split.
Qed.

Lemma configure_charm_returns_iff (self : Orc8rBase) (w : World) :
  configure_charm_outcome self w = Return tt
  <-> (connectable w = false
       \/ plan w = services (_pebble_layer self)
       \/ leader w = false
       \/ is_Some (model_relations w !! meta_name (charm self))).
Proof.
  unfold configure_charm_outcome, update_relations_outcome.
  change (leader (layered self w)) with (leader w).
  change (model_relations (layered self w)) with (model_relations w).
  destruct (connectable w); [|split; auto].
  destruct (decide (plan w = services (_pebble_layer self))) as [He|Hne].
  - rewrite bool_decide_eq_false_2 by (intros H; now apply H).
    split; auto.
  - rewrite bool_decide_eq_true_2 by assumption.
    destruct (leader w); [|split; auto].
    destruct (model_relations w !! meta_name (charm self)) as [ids|].
    + split; eauto.
    + split; [discriminate|].
      intros [H|[H|[H|[ids H]]]]; congruence.
Qed.

Lemma applies_false (self : Orc8rBase) (w : World) :
  connectable w = true -> applies self w = false ->
  plan w = services (_pebble_layer self).
Proof.
  unfold applies. intros -> H. cbn in H.
  apply bool_decide_eq_false_1 in H.
  destruct (decide (plan w = services (_pebble_layer self))); [assumption|].
  now destruct H.
Qed.

Lemma configure_charm_world_frame (self : Orc8rBase) (w : World) :
  leader (configure_charm_world self w) = leader w
  /\ connectable (configure_charm_world self w) = connectable w
  /\ model_get_relation (configure_charm_world self w) = model_get_relation w
  /\ model_relations (configure_charm_world self w) = model_relations w
  /\ plan (configure_charm_world self w)
     = (if applies self w then plan (layered self w) else plan w)
  /\ forall id,
       units (relation (configure_charm_world self w) id) = units (relation w id)
       /\ data (relation (configure_charm_world self w) id)
          = data (relation w id)
       /\ (forall key, key <> "active" ->
             own_data (relation (configure_charm_world self w) id) !! key
             = own_data (relation w id) !! key)
       /\ (id ∉ own_relations self w ->
           relation (configure_charm_world self w) id = relation w id)
       /\ (leader w = false ->
           relation (configure_charm_world self w) id = relation w id)
       /\ (applies self w = false ->
           relation (configure_charm_world self w) id = relation w id)
       /\ (own_data (relation (configure_charm_world self w) id) !! "active"
           = own_data (relation w id) !! "active"
           \/ own_data (relation (configure_charm_world self w) id) !! "active"
              = Some "True").
Proof.
  unfold configure_charm_world, applies.
  destruct (connectable w) eqn:Ec; cbn [andb].
  - destruct (conclude_fields (configure_charm_outcome self w)
                (if bool_decide (plan w ≠ services (_pebble_layer self))
                 then update_relations_world self (layered self w)
                 else with_status (MaintenanceStatus "Configuring pod") w))
      as (-> & -> & -> & -> & -> & ->).
    destruct (bool_decide (plan w ≠ services (_pebble_layer self))).
    + destruct (update_relations_world_host self (layered self w))
        as ([_ Hsame] & Hl & Hc & Hp & _).
      destruct (update_relations_world_frame self (layered self w))
        as (Hg & Hm & _ & Hrel).
      rewrite Hl, Hc, Hp, Hg, Hm.
      split; [reflexivity|]. split; [exact Ec|].
      split; [reflexivity|]. split; [reflexivity|]. split; [reflexivity|].
      intros id. destruct (Hsame id) as [Hu Hd].
      destruct (Hrel id) as (Hkept & Hother & Hfollower & Hactive).
      split; [exact Hu|]. split; [exact Hd|].
      split; [exact Hkept|]. split; [exact Hother|].
      split; [exact Hfollower|]. split; [discriminate|].
      rewrite (layered_registered self w Ec) in Hactive. exact Hactive.
    + repeat split; solve [exact Ec | now left].
  - repeat split; solve [exact Ec | now left].
Qed.

Lemma configure_charm_world_other (self : Orc8rBase) (w : World)
    (name : string) :
  name <> service_name self ->
  plan (configure_charm_world self w) !! name = plan w !! name.
Proof.
  intros Hne.
  destruct (configure_charm_world_frame self w) as (_ & _ & _ & _ & -> & _).
  destruct (applies self w); [now apply layered_other | reflexivity].
Qed.

Lemma configure_charm_world_registered (self : Orc8rBase) (w : World) :
  connectable w = true ->
  is_Some (plan (configure_charm_world self w) !! service_name self).
Proof.
  intros Hc.
  destruct (configure_charm_world_frame self w) as (_ & _ & _ & _ & -> & _).
  destruct (applies self w) eqn:Ea; [apply layered_defined|].
  rewrite (applies_false self w Hc Ea), pebble_layer_service. eauto.
Qed.

Lemma configure_charm_world_published (self : Orc8rBase) (w : World)
    (id : nat) :
  applies self w = true -> leader w = true -> id ∈ own_relations self w ->
  own_data (relation (configure_charm_world self w) id) !! "active"
  = Some "True".
Proof.
  unfold applies. intros Ha Hl Hin.
  apply andb_true_iff in Ha as [Hc Hd].
  unfold configure_charm_world. rewrite Hc, Hd.
  destruct (conclude_fields (configure_charm_outcome self w)
              (update_relations_world self (layered self w)))
    as (_ & _ & _ & _ & _ & ->).
  unfold update_relations_world.
  change (leader (layered self w)) with (leader w). rewrite Hl.
  rewrite (layered_registered self w Hc).
  now apply publish_written.
Qed.

Lemma configure_charm_log_counts (self : Orc8rBase) (w : World) :
  count is_add_layer (configure_charm_log self w)
  = (if applies self w then 1 else 0)
  /\ count is_restart (configure_charm_log self w)
     = (if applies self w then 1 else 0)
  /\ count is_defer (configure_charm_log self w)
     = (if connectable w then 0 else 1)
  /\ List.filter is_update_data (configure_charm_log self w)
     = (if applies self w then published self (layered self w) else []).
Proof.
  unfold count.
  rewrite (filter_commands is_add_layer), (filter_commands is_restart),
    (filter_commands is_defer), (filter_commands is_update_data)
    by now intros [].
  rewrite commands_configure_charm_log. unfold applies.
  destruct (connectable w); cbn [andb]; [|repeat split].
  destruct (bool_decide (plan w ≠ services (_pebble_layer self)));
    cbn [app List.filter is_add_layer is_restart is_defer is_update_data];
    rewrite ?filter_app_log, ?filter_published,
      ?(filter_published_none is_add_layer),
      ?(filter_published_none is_restart),
      ?(filter_published_none is_defer) by reflexivity;
    destruct (configure_charm_outcome self w); cbn; rewrite ?app_nil_r;
    repeat split.
Qed.

Lemma relation_ready_created (w : World) (name : string) :
  relation_ready w name = true -> is_Some (model_get_relation w !! name).
Proof.
  unfold relation_ready, observed_signal, inspected_unit.
  intros H. apply bool_decide_eq_true_1 in H.
  destruct (model_get_relation w !! name); [eauto | discriminate].
Qed.

Lemma relation_active_returns (w : World) (name : string) (b : bool) :
  fst (fst (_relation_active name w)) = Return b
  <-> relation_active_error w name = None /\ relation_ready w name = b.
Proof.
  rewrite _relation_active_run. cbn [fst]. unfold relation_active_outcome.
  destruct (relation_active_error w name).
  - split; [discriminate | intros [H _]; discriminate].
  - split; [intros H; injection H as <-; auto | intros [_ ->]; reflexivity].
Qed.

Lemma unready_relations_nil (self : Orc8rBase) (w : World) :
  unready_relations self w = []
  <-> forall name, name ∈ required_relations self ->
                   relation_ready w name = true.
Proof.
  split.
  - intros Hnil name Hin.
    pose proof (filter_nil_inv _ _ Hnil name Hin) as H.
    now apply negb_false_iff in H.
  - intros H. apply filter_none. intros name Hin. now rewrite H.
Qed.

Lemma all_ready (self : Orc8rBase) (w : World) :
  (forall name, name ∈ required_relations self -> relation_ready w name = true) ->
  created_error self w = None
  /\ missing_relations self w = []
  /\ unready_relations self w = [].
Proof.
  intros H.
  assert (Hfound : created_error self w = None /\ missing_relations self w = []).
  { apply all_found. intros name Hin. apply relation_ready_created; auto. }
  destruct Hfound as [He Hm].
  split; [exact He|]. split; [exact Hm|]. now apply unready_relations_nil.
Qed.

Lemma ready_by_relation_active (self : Orc8rBase) (w : World) :
  (forall name, name ∈ required_relations self ->
                fst (fst (_relation_active name w)) = Return true)
  <-> forall name, name ∈ required_relations self ->
                   relation_ready w name = true.
Proof.
  split.
  - intros H name Hin. now apply relation_active_returns, H.
  - intros H name Hin. apply relation_active_returns.
    split; [|now apply H].
    now apply get_relation_exists, relation_ready_created, H.
Qed.

(** The three ways the handler of pebble-ready and upgrade-charm goes: the
    first check raises; a check fails; both checks pass. *)
Lemma configure_workload_cases (self : Orc8rBase) (w : World) :
  (exists e,
     created_error self w = Some e
     /\ (e = KeyError \/ e = TooManyRelatedAppsError)
     /\ configure_workload_world self w = w
     /\ configure_workload_outcome self w = Raise e
     /\ commands (configure_workload_log self w) = [])
  \/ (created_error self w = None
      /\ (forall name, name ∈ required_relations self ->
                       relation_ready w name = true)
      /\ configure_workload_world self w = configure_charm_world self w
      /\ configure_workload_outcome self w = configure_charm_outcome self w
      /\ commands (configure_workload_log self w)
         = commands (configure_charm_log self w))
  \/ (exists s,
        created_error self w = None
        /\ (missing_relations self w <> [] \/ unready_relations self w <> [])
        /\ (exists msg, s = BlockedStatus msg \/ s = WaitingStatus msg)
        /\ configure_workload_world self w = with_status s w
        /\ configure_workload_outcome self w = Return tt
        /\ commands (configure_workload_log self w) = [ESetStatus s; EDefer]).
Proof.
  rewrite commands_configure_workload_log.
  unfold configure_workload_world, configure_workload_outcome.
  destruct (created_error self w) as [e|] eqn:Ee.
  - left. exists e. repeat split.
    apply first_raise_some in Ee as (name & _ & Hname).
    unfold get_relation_error, get_relation_outcome in Hname.
    destruct (model_relations w !! name) as [[|id [|id' rest]]|];
      try discriminate; injection Hname as <-; auto.
  - right.
    destruct (missing_relations self w) as [|m ms] eqn:Em.
    + destruct (unready_relations self w) as [|u us] eqn:Eu.
      * left. repeat split. now apply unready_relations_nil.
      * right. eexists. split; [reflexivity|]. split; [right; discriminate|].
        split; [eexists; right; reflexivity|]. repeat split.
    + right. eexists. split; [reflexivity|]. split; [left; discriminate|].
      split; [eexists; left; reflexivity|]. repeat split.
Qed.

Lemma configure_workload_ready (self : Orc8rBase) (w : World) :
  (forall name, name ∈ required_relations self -> relation_ready w name = true) ->
  configure_workload_world self w = configure_charm_world self w
  /\ commands (configure_workload_log self w)
     = commands (configure_charm_log self w)
  /\ configure_workload_outcome self w = configure_charm_outcome self w.
Proof.
  intros Hready. destruct (all_ready self w Hready) as (He & Hm & Hu).
  rewrite commands_configure_workload_log.
  unfold configure_workload_world, configure_workload_outcome.
  now rewrite He, Hm, Hu.
Qed.

Lemma configure_workload_returns (self : Orc8rBase) (w : World) :
  configure_workload_outcome self w = Return tt ->
  _configure_workload self w
  = (Return tt, configure_workload_world self w,
     configure_workload_log self w).
Proof. intros Hout. now rewrite _configure_workload_run, Hout. Qed.

Lemma configure_workload_completes (self : Orc8rBase) (w : World) :
  created_error self w = None ->
  (leader w = true -> provides_own_relation self w) ->
  configure_workload_outcome self w = Return tt.
Proof.
  intros He Hprovides. unfold configure_workload_outcome. rewrite He.
  destruct (missing_relations self w); [|reflexivity].
  destruct (unready_relations self w); [|reflexivity].
  now apply configure_charm_completes.
Qed.

Lemma configure_workload_unconfigured (self : Orc8rBase) (w : World) :
  created_error self w = None ->
  missing_relations self w <> [] \/ unready_relations self w <> []
  \/ connectable w = false ->
  configure_workload_outcome self w = Return tt.
Proof.
  unfold configure_workload_outcome, configure_charm_outcome. intros ->.
  destruct (missing_relations self w); [|reflexivity].
  destruct (unready_relations self w); [|reflexivity].
  intros [H|[H|Hc]]; [congruence | congruence | now rewrite Hc].
Qed.

Lemma configure_workload_active (self : Orc8rBase) (w : World) :
  configure_workload_outcome self w = Return tt ->
  status (configure_workload_world self w) = ActiveStatus ->
  configure_workload_world self w = configure_charm_world self w
  /\ connectable w = true
  /\ configure_charm_outcome self w = Return tt
  /\ (forall name, name ∈ required_relations self ->
                   relation_ready w name = true)
  /\ commands (configure_workload_log self w)
     = commands (configure_charm_log self w).
Proof.
  intros Hout Hst.
  destruct (configure_workload_cases self w)
    as [(e & _ & _ & _ & Ho & _)
       |[(_ & Hready & Hw & Ho & Hcmd)|(s & _ & _ & (msg & Hs) & Hw & _)]].
  - congruence.
  - split; [exact Hw|]. rewrite Hw, configure_charm_status in Hst.
    rewrite Ho in Hout.
    destruct (connectable w); [|discriminate]. auto.
  - rewrite Hw in Hst. cbn in Hst. destruct Hs; congruence.
Qed.

(** ** The probes *)

(** C10, as the code has it.  [_relation_active] leaves the host as it was,
    and the only exception it ever ends in is the [TooManyRelatedAppsError]
    of [model.get_relation], raised exactly when more than one relation is
    established on the endpoint: it is none of the three exceptions the
    method catches.  Otherwise the method returns, and it returns [True]
    exactly when one relation is established on the endpoint, that relation
    has at least one counterpart unit, and the bag of the first unit that
    iterating over the units yields maps ["active"] to the string ["True"].
    An endpoint the charm does not declare, a missing relation, an empty
    unit set, a bag without ["active"], and any other value under
    ["active"] give [False].  The only relation data it reads is the
    ["active"] entry of that first unit, at most once. *)
Theorem relation_active_total (name : string) (w : World) :
  exists (o : outcome bool) (log : list Effect),
    _relation_active name w = (o, w, log)
    /\ (forall e,
          o = Raise e <->
          e = TooManyRelatedAppsError
          /\ exists id id' rest,
               model_relations w !! name = Some (id :: id' :: rest))
    /\ (o = Return true <->
        exists id unit rest bag,
          model_relations w !! name = Some [id]
          /\ units (relation w id) = unit :: rest
          /\ data (relation w id) !! unit = Some bag
          /\ bag !! "active" = Some "True")
    /\ (model_relations w !! name = None -> o = Return false)
    /\ (model_relations w !! name = Some [] -> o = Return false)
    /\ (forall id,
          model_relations w !! name = Some [id] ->
          units (relation w id) = [] -> o = Return false)
    /\ (forall id unit rest bag,
          model_relations w !! name = Some [id] ->
          units (relation w id) = unit :: rest ->
          data (relation w id) !! unit = Some bag ->
          bag !! "active" = None -> o = Return false)
    /\ (forall id unit rest bag value,
          model_relations w !! name = Some [id] ->
          units (relation w id) = unit :: rest ->
          data (relation w id) !! unit = Some bag ->
          bag !! "active" = Some value ->
          value <> "True" -> o = Return false)
    /\ count is_read_data log <= 1
    /\ (forall id unit key,
          In (EReadData id unit key) log ->
          key = "active"
          /\ model_relations w !! name = Some [id]
          /\ exists rest, units (relation w id) = unit :: rest).
Proof.
  exists (relation_active_outcome w name), (relation_active_log w name).
  split; [apply _relation_active_run|].
  unfold relation_active_outcome, relation_active_error, get_relation_error,
    relation_ready, observed_signal, relation_active_log, inspected_unit.
  rewrite model_get_relation_lookup. unfold get_relation_outcome.
  destruct (model_relations w !! name) as [[|id0 [|id1 ids]]|] eqn:Erel;
    cbn [existsb is_instance orb andb bool_decide decide_rel].
  - (* no relation *)
    split; [intros e; split; [discriminate|]; intros (_ & ? & ? & ? & H);
            discriminate|].
    split; [split; [intros H; injection H as H;
                    try apply bool_decide_eq_true_1 in H; discriminate
                   |intros (? & ? & ? & ? & H & _); discriminate]|].
    split; [discriminate|]. split; [intros _; reflexivity|].
    split; [discriminate|]. split; [discriminate|]. split; [discriminate|].
    split; [cbn; lia|].
    intros id unit key [H|[]]. discriminate.
  - (* one relation *)
    split; [intros e; split; [|intros (_ & ? & ? & ? & H); discriminate]|].
    { destruct (units (relation w id0)); discriminate. }
    split.
    { split.
      - intros Hb. injection Hb as Hb. apply bool_decide_eq_true_1 in Hb.
        destruct (units (relation w id0)) as [|unit rest] eqn:Eu;
          [discriminate|].
        destruct (data (relation w id0) !! unit) as [bag|] eqn:Eb;
          [|discriminate].
        exists id0, unit, rest, bag. cbn in Hb. auto.
      - intros (id & unit & rest & bag & Hid & Hu & Hbag & Hact).
        injection Hid as <-. rewrite Hu. f_equal.
        apply bool_decide_eq_true_2. rewrite Hbag. exact Hact. }
    split; [discriminate|]. split; [discriminate|].
    split.
    { intros id Hid Hu. injection Hid as <-. now rewrite Hu. }
    split.
    { intros id unit rest bag Hid Hu Hbag Hact. injection Hid as <-.
      rewrite Hu. f_equal.
      apply bool_decide_eq_false_2. rewrite Hbag. cbn. rewrite Hact.
      discriminate. }
    split.
    { intros id unit rest bag value Hid Hu Hbag Hact Hne. injection Hid as <-.
      rewrite Hu. f_equal.
      apply bool_decide_eq_false_2. rewrite Hbag. cbn. rewrite Hact.
      congruence. }
    split; [destruct (units (relation w id0)); cbn; lia|].
    intros id unit key Hin.
    destruct (units (relation w id0)) as [|u rest] eqn:Eu;
      [destruct Hin as [H|[]]; discriminate|].
    destruct Hin as [H|[H|[]]]; [discriminate|]. injection H as <- <- <-.
    split; [reflexivity|]. split; [reflexivity|]. now exists rest.
  - (* more than one relation *)
    split.
    { intros e. split.
      - intros H. injection H as <-. split; [reflexivity|]. eauto.
      - intros [-> _]. reflexivity. }
    split; [split; [discriminate|intros (? & ? & ? & ? & H & _); discriminate]|].
    split; [discriminate|]. split; [discriminate|].
    split; [discriminate|]. split; [discriminate|]. split; [discriminate|].
    split; [cbn; lia|].
    intros id unit key [H|[]]. discriminate.
  - (* the endpoint is not declared *)
    split; [intros e; split; [discriminate|]; intros (_ & ? & ? & ? & H);
            discriminate|].
    split; [split; [intros H; injection H as H;
                    try apply bool_decide_eq_true_1 in H; discriminate
                   |intros (? & ? & ? & ? & H & _); discriminate]|].
    split; [intros _; reflexivity|]. split; [discriminate|].
    split; [discriminate|]. split; [discriminate|]. split; [discriminate|].
    split; [cbn; lia|].
    intros id unit key [H|[]]. discriminate.
Qed.

(** C10 fails as worded where two applications are related on the endpoint:
    [model.get_relation] raises [TooManyRelatedAppsError], which is not
    among the exceptions [_relation_active] catches. *)
Lemma relation_active_raises_on_two_relations :
  model_relations (doubly_related_world true) !! "magma-orc8r-whatever"
  = Some [1; 2]
  /\ _relation_active "magma-orc8r-whatever" (doubly_related_world true)
     = (Raise TooManyRelatedAppsError, doubly_related_world true,
        [EGetRelation "magma-orc8r-whatever"])
  /\ ~ relation_active_never_raises "magma-orc8r-whatever"
         (doubly_related_world true).
Proof.
  assert (Hrun : _relation_active "magma-orc8r-whatever"
                   (doubly_related_world true)
                 = (Raise TooManyRelatedAppsError, doubly_related_world true,
                    [EGetRelation "magma-orc8r-whatever"]))
    by (vm_compute; reflexivity).
  split; [vm_compute; reflexivity|]. split; [exact Hrun|].
  intros (b & w' & log & H). rewrite Hrun in H. discriminate.
Qed.

(** C6.  [_service_is_running] always returns: it never raises and does not
    change the host.  It returns [True] exactly when the container can be
    connected to and [get_service] finds the named service; it returns
    [False] when the container cannot be connected to, and it returns [False]
    when [get_service] raises [ModelError]. *)
Theorem service_is_running_total (self : Orc8rBase) (w : World) :
  exists (b : bool) (log : list Effect),
    _service_is_running self w = (Return b, w, log)
    /\ (b = true <->
        connectable w = true
        /\ fst (fst (get_service (service_name self) w)) = Return tt)
    /\ (connectable w = false -> b = false)
    /\ (fst (fst (get_service (service_name self) w)) = Raise ModelError ->
        b = false).
Proof.
  exists (service_running self w), (service_probe_log self w).
  split; [apply _service_is_running_run|].
  unfold service_running, service_registered, get_service. cbn [fst].
  destruct (connectable w), (plan w !! service_name self) as [s|]; cbn;
    repeat split; try tauto; try discriminate;
    intros; repeat match goal with H : _ /\ _ |- _ => destruct H end;
    try discriminate; try reflexivity.
Qed.

(** The counterpart must have published exactly ["True"]. *)
Example relation_active_values :
  fst (fst (_relation_active "magma-orc8r-whatever"
              (related_world false true {["active" := "True"]})))
  = Return true
  /\ fst (fst (_relation_active "magma-orc8r-whatever"
                 (related_world false true {["active" := "true"]})))
     = Return false
  /\ fst (fst (_relation_active "magma-orc8r-whatever"
                 (related_world false true {["active" := "False"]})))
     = Return false
  /\ fst (fst (_relation_active "magma-orc8r-whatever"
                 (related_world false true ∅)))
     = Return false
  /\ fst (fst (_relation_active "magma-orc8r-whatever" fresh_world))
     = Return false
  /\ fst (fst (_relation_active "magma-orc8r-undeclared" fresh_world))
     = Return false.
Proof. vm_compute. repeat split. Qed.

(** ** The lifecycle handler *)

Lemma answers_created (self : Orc8rBase) (w : World) :
  (forall name, name ∈ required_relations self -> answers w name) ->
  created_error self w = None.
Proof.
  intros H. apply first_raise_none. intros name Hin.
  now apply answers_error, H.
Qed.



(** C5, as the code has it.  When the container cannot be connected to and
    [model.get_relation] answers for each required relation, with a
    relation or with [None], the
    handler of pebble-ready and upgrade-charm defers the event exactly once
    whatever the state of the required relations, applies no layer and
    restarts nothing.  The status it sets is Blocked, naming the missing
    relations, when some required relation does not exist; Waiting, naming
    the relations that are not ready, when all exist and some are not ready;
    and Waiting for the container when all are ready. *)
Theorem configure_workload_unreachable (self : Orc8rBase) (w : World) :
  connectable w = false ->
  (forall name, name ∈ required_relations self -> answers w name) ->
  exists w' log,
    _configure_workload self w = (Return tt, w', log)
    /\ count is_defer log = 1
    /\ count is_add_layer log = 0
    /\ count is_restart log = 0
    /\ status w'
       = match missing_relations self w with
         | [] =>
             WaitingStatus
               match unready_relations self w with
               | [] => "Waiting for container to be ready..."
               | names =>
                   "Waiting for relation(s) to be ready: " +:+ join ", " names
               end
         | names =>
             BlockedStatus
               ("Waiting for relation(s) to be created: " +:+ join ", " names)
         end.
Proof.
  intros Hc Hanswers.
  pose proof (answers_created self w Hanswers) as He.
  exists (configure_workload_world self w), (configure_workload_log self w).
  split; [apply configure_workload_returns, configure_workload_unconfigured;
          [exact He | now right; right]|].
  rewrite (count_commands is_defer), (count_commands is_add_layer),
    (count_commands is_restart) by now intros [].
  rewrite commands_configure_workload_log, commands_configure_charm_log.
  unfold configure_workload_world, configure_charm_world.
  rewrite Hc, He.
  destruct (missing_relations self w); [|repeat split].
  destruct (unready_relations self w); repeat split.
Qed.

(** C5 fails where a required relation is missing: with the container
    unreachable, the charm with a required relation and no relation yet
    ends Blocked, not Waiting (the status the test suite expects there).
    It also fails where [model.get_relation] does not answer: with two
    applications related on the required endpoint the handler ends in
    [TooManyRelatedAppsError], having set no status and deferred nothing. *)
Lemma unreachable_with_missing_relation_is_blocked :
  connectable fresh_world = false
  /\ _configure_workload dummy_with_required_relation fresh_world
     = (Return tt,
        with_status
          (BlockedStatus
             "Waiting for relation(s) to be created: magma-orc8r-whatever")
          fresh_world,
        [EGetRelation "magma-orc8r-whatever";
         ESetStatus
           (BlockedStatus
              "Waiting for relation(s) to be created: magma-orc8r-whatever");
         EDefer])
  /\ ~ unreachable_sets_waiting dummy_with_required_relation fresh_world
  /\ connectable (doubly_related_world false) = false
  /\ _configure_workload dummy_with_required_relation
       (doubly_related_world false)
     = (Raise TooManyRelatedAppsError, doubly_related_world false,
        [EGetRelation "magma-orc8r-whatever"])
  /\ ~ unreachable_sets_waiting dummy_with_required_relation
         (doubly_related_world false).
Proof.
  assert (Hrun : _configure_workload dummy_with_required_relation fresh_world
                 = (Return tt,
                    with_status
                      (BlockedStatus
                         "Waiting for relation(s) to be created: magma-orc8r-whatever")
                      fresh_world,
                    [EGetRelation "magma-orc8r-whatever";
                     ESetStatus
                       (BlockedStatus
                          "Waiting for relation(s) to be created: magma-orc8r-whatever");
                     EDefer]))
    by (vm_compute; reflexivity).
  assert (Hmany : _configure_workload dummy_with_required_relation
                    (doubly_related_world false)
                  = (Raise TooManyRelatedAppsError, doubly_related_world false,
                     [EGetRelation "magma-orc8r-whatever"]))
    by (vm_compute; reflexivity).
  split; [reflexivity|]. split; [exact Hrun|].
  split.
  { intros H. destruct (H eq_refl) as (w' & log & msg & Hrun' & Hstatus & _).
    rewrite Hrun in Hrun'. injection Hrun' as <- _.
    vm_compute in Hstatus. discriminate. }
  split; [reflexivity|]. split; [exact Hmany|].
  intros H. destruct (H eq_refl) as (w' & log & msg & Hrun' & _).
  rewrite Hmany in Hrun'. discriminate.
Qed.




(** The overrides cannot displace a default. *)
Example defaults_win :
  _environment_variables
    (new dummy_charm dummy_command None
       (Some {["SERVICE_HOSTNAME" := "elsewhere"; "LOG_LEVEL" := "debug"]}))
  = {["SERVICE_HOSTNAME" := "magma-orc8r-dummy";
      "SERVICE_REGISTRY_MODE" := "k8s";
      "SERVICE_REGISTRY_NAMESPACE" := "banana";
      "LOG_LEVEL" := "debug"]}.
Proof. vm_compute. reflexivity. Qed.

(** C9, as the code has it.  On a unit of a charm that declares the relation
    named after it, when the handler of pebble-ready and upgrade-charm gets
    as far as comparing (every required relation ready, the container
    connectable) and the services of the plan differ from
    those of the computed layer, it applies the layer under the container
    name with [combine=True], which replaces the entry of the named service
    in the layer of that label and leaves every other entry of the plan,
    then restarts the named
    service, and then, if the unit is the leader, writes ["True"] under
    ["active"] into the unit's bag of every relation held under the charm's
    own name, in that order; a unit that is not the leader writes into no
    relation.  The plan then renders the computed entry, unless a layer
    under another label defines the service as well.  When the services are
    equal, no layer is applied, nothing is
    restarted and no relation is written. *)
Theorem configure_workload_reconfigures (self : Orc8rBase) (w : World) :
  (leader w = true -> provides_own_relation self w) ->
  (forall name, name ∈ required_relations self -> relation_ready w name = true) ->
  connectable w = true ->
  exists w' log,
    _configure_workload self w = (Return tt, w', log)
    /\ (plan w <> services (_pebble_layer self) ->
        commands log
        = [ESetStatus (MaintenanceStatus "Configuring pod");
           EAddLayer (container_name self) (_pebble_layer self) true;
           ERestart (service_name self);
           ELogInfo ("Restarted container " +:+ service_name self)]
          ++ (if leader w
              then List.map (fun id => EUpdateData id "active" "True")
                     (own_relations self w)
              else [])
          ++ [ESetStatus ActiveStatus]
        /\ (exists entries,
              (container_name self, entries) ∈ layers w'
              /\ entries !! service_name self
                 = services (_pebble_layer self) !! service_name self)
        /\ (unrivalled self w ->
            plan w' !! service_name self
            = services (_pebble_layer self) !! service_name self)
        /\ (forall name, name <> service_name self ->
                         plan w' !! name = plan w !! name)
        /\ (leader w = true ->
            forall id, id ∈ own_relations self w ->
                       own_data (relation w' id) !! "active" = Some "True")
        /\ (leader w = false -> relation w' = relation w))
    /\ (plan w = services (_pebble_layer self) ->
        commands log
        = [ESetStatus (MaintenanceStatus "Configuring pod");
           ESetStatus ActiveStatus]
        /\ plan w' = plan w
        /\ relation w' = relation w).
Proof.
  intros Hprovides Hready Hc.
  destruct (configure_workload_ready self w Hready) as (Hw & Hlog & Hout).
  pose proof (configure_charm_completes self w Hprovides) as Hret.
  exists (configure_workload_world self w), (configure_workload_log self w).
  split; [apply configure_workload_returns; now rewrite Hout|].
  rewrite Hw, Hlog. split.
  - intros Hdiff.
    destruct (configure_charm_reconfigured self w Hret Hc Hdiff) as [-> ->].
    split; [reflexivity|].
    destruct (update_relations_world_host self (layered self w))
      as (_ & _ & _ & Hplan & _).
    destruct (update_relations_world_frame self (layered self w))
      as (_ & _ & Hlayers & _).
    split.
    { cbn [layers with_status]. rewrite Hlayers. apply layered_holds. }
    change (plan (with_status ActiveStatus
                    (update_relations_world self (layered self w))))
      with (plan (update_relations_world self (layered self w))).
    rewrite Hplan.
    split; [apply layered_unrivalled|].
    split; [intros name Hne; now apply layered_other|].
    split.
    + intros Hl id Hin. cbn [relation with_status].
      unfold update_relations_world.
      change (leader (layered self w)) with (leader w). rewrite Hl.
      rewrite (layered_registered self w Hc).
      now apply publish_written.
    + intros Hl. cbn [relation with_status].
      unfold update_relations_world.
      change (leader (layered self w)) with (leader w). rewrite Hl.
      reflexivity.
  - intros Hsame.
    destruct (configure_charm_unchanged self w Hc Hsame) as (-> & -> & _).
    repeat split.
Qed.

(** C9 fails on a unit that is not the leader: the layer is applied and the
    service restarted, and nothing is written into the relation held under
    the charm's name. *)
Lemma follower_reconfigures_without_writing :
  let w := related_world false true {["active" := "True"]} in
  leader w = false
  /\ model_relations w !! "magma-orc8r-dummy" = Some [0]
  /\ own_relations dummy_with_required_relation w = [0]
  /\ (exists w' log,
        _configure_workload dummy_with_required_relation w
        = (Return tt, w', log)
        /\ commands log
           = [ESetStatus (MaintenanceStatus "Configuring pod");
              EAddLayer "magma-orc8r-dummy"
                (_pebble_layer dummy_with_required_relation) true;
              ERestart "magma-orc8r-dummy";
              ELogInfo "Restarted container magma-orc8r-dummy";
              ESetStatus ActiveStatus]
        /\ own_data (relation w' 0) !! "active" = None)
  /\ ~ reconfiguration_writes_relations dummy_with_required_relation w.
Proof.
  intros w.
  assert (Hrun : _configure_workload dummy_with_required_relation w
                 = (Return tt,
                    configure_workload_world dummy_with_required_relation w,
                    configure_workload_log dummy_with_required_relation w)).
  { rewrite _configure_workload_run.
    now replace (configure_workload_outcome dummy_with_required_relation w)
      with (Return tt : outcome unit) by (vm_compute; reflexivity). }
  split; [reflexivity|]. split; [vm_compute; reflexivity|].
  split; [vm_compute; reflexivity|].
  split.
  { exists (configure_workload_world dummy_with_required_relation w),
      (configure_workload_log dummy_with_required_relation w).
    split; [exact Hrun|].
    split; vm_compute; reflexivity. }
  intros H.
  destruct H as (w' & log & Hrun' & Hwrites).
  - intros name Hin. apply list_elem_of_singleton in Hin. subst name.
    vm_compute. reflexivity.
  - reflexivity.
  - intros Heq. apply (f_equal (fun m => m !! "magma-orc8r-dummy")) in Heq.
    vm_compute in Heq. discriminate.
  - rewrite Hrun in Hrun'. injection Hrun' as <- <-.
    destruct (Hwrites 0) as (value & _ & Hdata).
    + vm_compute. left.
    + vm_compute in Hdata. discriminate.
Qed.




(** ** The relation-joined handler *)

(** C7.  For every relation-joined event, with [running] what
    [_service_is_running] returns: a unit that is not the leader writes
    nothing and does not defer; on the leader, when the service is not
    running the handler writes ["False"] under ["active"] into the unit's
    bag of the joined relation and defers the event; on the leader, when the
    service is running it writes ["True"] and does not defer. *)
Theorem on_relation_joined_cases (self : Orc8rBase) (event_relation : nat)
    (w : World) :
  exists w' log running probe,
    _on_relation_joined self event_relation w = (Return tt, w', log)
    /\ _service_is_running self w = (Return running, w, probe)
    /\ (leader w = false -> w' = w /\ commands log = [])
    /\ (leader w = true -> running = false ->
        commands log = [EUpdateData event_relation "active" "False"; EDefer]
        /\ own_data (relation w' event_relation) !! "active" = Some "False")
    /\ (leader w = true -> running = true ->
        commands log = [EUpdateData event_relation "active" "True"]
        /\ own_data (relation w' event_relation) !! "active" = Some "True").
Proof.
  exists (relation_joined_world self event_relation w),
    (relation_joined_log self event_relation w),
    (service_running self w), (service_probe_log self w).
  split; [apply _on_relation_joined_run|].
  split; [apply _service_is_running_run|].
  rewrite commands_relation_joined_log.
  unfold relation_joined_world.
  split; [|split].
  - intros ->. split; reflexivity.
  - intros -> ->. split; [reflexivity | apply own_data_written].
  - intros -> ->. split; [reflexivity | apply own_data_written].
Qed.

(** C8.  On a unit that is not the leader, neither handler writes into any
    relation, however the call ends: the log of the call holds no relation
    update and every relation object is as it was.  The handler of
    relation-joined always returns; the handler of pebble-ready and
    upgrade-charm returns whenever [model.get_relation] answers for each
    required relation. *)
Theorem non_leader_never_writes (self : Orc8rBase) (event_relation : nat)
    (w : World) :
  leader w = false ->
  (exists o w' log,
     _configure_workload self w = (o, w', log)
     /\ ((forall name, name ∈ required_relations self -> answers w name) ->
         o = Return tt)
     /\ count is_update_data log = 0
     /\ relation w' = relation w)
  /\ (exists w' log,
        _on_relation_joined self event_relation w = (Return tt, w', log)
        /\ count is_update_data log = 0
        /\ relation w' = relation w).
Proof.
  intros Hl.
  assert (Hfollower : leader w = true -> provides_own_relation self w)
    by congruence.
  pose proof (configure_charm_completes self w Hfollower) as Hout.
  split.
  - exists (configure_workload_outcome self w),
      (configure_workload_world self w), (configure_workload_log self w).
    split; [apply _configure_workload_run|].
    split.
    { intros Hanswers.
      now apply configure_workload_completes; [apply answers_created|]. }
    rewrite (count_commands is_update_data) by now intros [].
    rewrite commands_configure_workload_log, commands_configure_charm_log.
    unfold configure_workload_world, configure_charm_world,
      update_relations_world, published.
    rewrite Hout.
    change (leader (layered self w)) with (leader w). rewrite Hl.
    destruct (created_error self w); [split; reflexivity|].
    destruct (missing_relations self w); [|split; reflexivity].
    destruct (unready_relations self w); [|split; reflexivity].
    destruct (connectable w); [|split; reflexivity].
    destruct (bool_decide _); split; reflexivity.
  - exists (relation_joined_world self event_relation w),
      (relation_joined_log self event_relation w).
    split; [apply _on_relation_joined_run|].
    unfold relation_joined_world, relation_joined_log. rewrite Hl.
    split; reflexivity.
Qed.

(** [test_given_workload_not_running_when_relation_joined_...] and
    [test_given_workload_running_when_relation_joined_...]: the leader
    publishes ["False"] and defers before the layer is there, and ["True"]
    after pebble-ready. *)
Example relation_joined_before_pebble_ready :
  commands (snd (_on_relation_joined dummy 0 (related_world true false ∅)))
  = [EUpdateData 0 "active" "False"; EDefer].
Proof. vm_compute. reflexivity. Qed.

Example relation_joined_after_pebble_ready :
  commands
    (snd (_on_relation_joined dummy 0
            (configure_workload_world dummy (related_world true true ∅))))
  = [EUpdateData 0 "active" "True"].
Proof. vm_compute. reflexivity. Qed.

(** ** Construction *)

(** X1.  The layer a charm computes depends on the overrides it was
    constructed with only outside the three default keys, and not at all on
    its required relations: two instances of the same charm with the same
    startup command compute the same layer exactly when their overrides
    (an omitted argument counting as the empty dictionary) agree on every
    key other than SERVICE_HOSTNAME, SERVICE_REGISTRY_MODE and
    SERVICE_REGISTRY_NAMESPACE.  An override given for a default key is
    dropped. *)
Theorem pebble_layer_overrides (c : Charm) (cmd : string)
    (required required' : option (list string))
    (a b : option (gmap string string)) :
  _pebble_layer (new c cmd required a) = _pebble_layer (new c cmd required' b)
  <-> forall key,
        key <> "SERVICE_HOSTNAME" ->
        key <> "SERVICE_REGISTRY_MODE" ->
        key <> "SERVICE_REGISTRY_NAMESPACE" ->
        default ∅ a !! key = default ∅ b !! key.
Proof.
  destruct (environment_variables_lookup (new c cmd required a))
    as (A1 & A2 & A3 & A4).
  destruct (environment_variables_lookup (new c cmd required' b))
    as (B1 & B2 & B3 & B4).
  split.
  - intros Heq key H1 H2 H3.
    pose proof (pebble_layer_service (new c cmd required a)) as La.
    pose proof (pebble_layer_service (new c cmd required' b)) as Lb.
    rewrite Heq in La.
    change (service_name (new c cmd required a))
      with (service_name (new c cmd required' b)) in La.
    rewrite Lb in La. injection La as La.
    change (additional_environment_variables (new c cmd required a) !! key
            = additional_environment_variables (new c cmd required' b) !! key).
    rewrite <- A4, <- B4 by assumption. now rewrite La.
  - intros Hsame. unfold _pebble_layer. cbn [service_name startup_command new].
    do 3 f_equal. apply map_eq. intros key.
    destruct (decide (key = "SERVICE_HOSTNAME")) as [->|H1];
      [now rewrite A1, B1|].
    destruct (decide (key = "SERVICE_REGISTRY_MODE")) as [->|H2];
      [now rewrite A2, B2|].
    destruct (decide (key = "SERVICE_REGISTRY_NAMESPACE")) as [->|H3];
      [now rewrite A3, B3|].
    rewrite A4, B4 by assumption. now apply Hsame.
Qed.

(** X2.  A charm constructed without required relations, the argument
    omitted or the empty list, skips both relation checks: its handler of
    pebble-ready and upgrade-charm makes the same calls, returns or raises
    the same and leaves the same host as [_configure_charm] alone. *)
Theorem no_required_relations (c : Charm) (cmd : string)
    (additional : option (gmap string string)) (w : World) :
  _configure_workload (new c cmd None additional) w
  = _configure_charm (new c cmd None additional) w
  /\ _configure_workload (new c cmd (Some []) additional) w
     = _configure_charm (new c cmd (Some []) additional) w.
Proof.
  split; rewrite _configure_workload_run, _configure_charm_run; reflexivity.
Qed.

(** ** The checks on their own *)

Lemma first_raise_split {A} (error : A -> option exn) (l : list A) (e : exn) :
  first_raise error l = Some e
  <-> exists before x after,
        l = before ++ x :: after
        /\ (forall y, y ∈ before -> error y = None)
        /\ error x = Some e.
Proof.
  induction l as [|y l IH]; cbn [first_raise].
  - split; [discriminate|]. intros (before & x & after & H & _).
    now destruct before.
  - destruct (error y) as [e'|] eqn:Ey.
    + split.
      * intros H. injection H as <-. exists [], y, l.
        split; [reflexivity|]. split; [|exact Ey].
        intros z Hz. now apply not_elem_of_nil in Hz.
      * intros ([|b before] & x & after & H & Hbefore & Hx).
        -- injection H as <- <-. congruence.
        -- injection H as <- _. rewrite Hbefore in Ey by left. discriminate.
    + rewrite IH. split.
      * intros (before & x & after & -> & Hbefore & Hx).
        exists (y :: before), x, after. split; [reflexivity|].
        split; [|exact Hx].
        intros z Hz. apply elem_of_cons in Hz as [->|Hz]; auto.
      * intros ([|b before] & x & after & H & Hbefore & Hx).
        -- injection H as <- <-. congruence.
        -- injection H as <- ->. exists before, x, after.
           split; [reflexivity|]. split; [|exact Hx].
           intros z Hz. apply Hbefore. now right.
Qed.

Lemma reached_split {A} (error : A -> option exn) (before after : list A)
    (x : A) (e : exn) :
  (forall y, y ∈ before -> error y = None) ->
  error x = Some e ->
  reached error (before ++ x :: after) = before ++ [x].
Proof.
  intros Hbefore Hx. induction before as [|b before IH]; cbn [app reached].
  - now rewrite Hx.
  - rewrite Hbefore by left. f_equal. apply IH.
    intros y Hy. apply Hbefore. now right.
Qed.

Lemma get_relation_error_cases (w : World) (name : string) (e : exn) :
  get_relation_error w name = Some e
  <-> (e = KeyError /\ model_relations w !! name = None)
      \/ (e = TooManyRelatedAppsError
          /\ exists id id' rest,
               model_relations w !! name = Some (id :: id' :: rest)).
Proof.
  unfold get_relation_error, get_relation_outcome.
  destruct (model_relations w !! name) as [[|id [|id' rest]]|].
  - split; [discriminate|].
    intros [[_ H]|(_ & ? & ? & ? & H)]; discriminate.
  - split; [discriminate|].
    intros [[_ H]|(_ & ? & ? & ? & H)]; discriminate.
  - split.
    + intros H. injection H as <-. right. eauto.
    + intros [[_ H]|(-> & _)]; [discriminate | reflexivity].
  - split.
    + intros H. injection H as <-. now left.
    + intros [[-> _]|(_ & ? & ? & ? & H)]; [reflexivity | discriminate].
Qed.

Lemma relation_active_error_cases (w : World) (name : string) (e : exn) :
  relation_active_error w name = Some e
  <-> e = TooManyRelatedAppsError
      /\ exists id id' rest,
           model_relations w !! name = Some (id :: id' :: rest).
Proof.
  unfold relation_active_error, get_relation_error, get_relation_outcome.
  destruct (model_relations w !! name) as [[|id [|id' rest]]|]; cbn.
  - split; [discriminate | intros (_ & ? & ? & ? & H); discriminate].
  - split; [discriminate | intros (_ & ? & ? & ? & H); discriminate].
  - split.
    + intros H. injection H as <-. eauto.
    + intros [-> _]. reflexivity.
  - split; [discriminate | intros (_ & ? & ? & ? & H); discriminate].
Qed.

Lemma missing_by_lookup (self : Orc8rBase) (w : World) :
  missing_relations self w
  = List.filter
      (fun name => bool_decide (model_get_relation w !! name = None))
      (required_relations self).
Proof.
  apply filter_ext_in. intros name _. unfold relation_missing.
  destruct (model_get_relation w !! name) as [id|].
  - rewrite bool_decide_eq_true_2 by eauto.
    now rewrite bool_decide_eq_false_2 by discriminate.
  - rewrite bool_decide_eq_false_2 by (intros [? ?]; discriminate).
    now rewrite bool_decide_eq_true_2.
Qed.

(** X3.  [_relations_created] never defers.  It looks the required
    relations up in the order of [required_relations], and ends in the
    exception of the first lookup that raises: [KeyError] for an endpoint
    the charm does not declare, [TooManyRelatedAppsError] for an endpoint
    with more than one relation; it has then changed nothing and looked
    no further.  Otherwise it looks up every required relation once, also
    after it has found one missing.  It returns [True] exactly when
    every required relation exists, and then leaves the host as it was.
    When it returns [False] its only other effect is to set the
    status to Blocked, with the message that lists the missing relations in
    the order of [required_relations]. *)
Theorem relations_created_check (self : Orc8rBase) (w : World) :
  exists (o : outcome bool) (w' : World) (log : list Effect),
    _relations_created self w = (o, w', log)
    /\ count is_defer log = 0
    /\ (forall e,
          o = Raise e <->
          exists before name after,
            required_relations self = before ++ name :: after
            /\ (forall found, found ∈ before -> answers w found)
            /\ ((e = KeyError /\ model_relations w !! name = None)
                \/ (e = TooManyRelatedAppsError
                    /\ exists id id' rest,
                         model_relations w !! name
                         = Some (id :: id' :: rest))))
    /\ (forall e before name after,
          o = Raise e ->
          required_relations self = before ++ name :: after ->
          (forall found, found ∈ before -> answers w found) ->
          ~ answers w name ->
          w' = w /\ log = List.map EGetRelation (before ++ [name]))
    /\ (o = Return true <->
        forall name, name ∈ required_relations self ->
                     is_Some (model_get_relation w !! name))
    /\ (o = Return true ->
        w' = w /\ log = List.map EGetRelation (required_relations self))
    /\ (o = Return false ->
        exists names,
          names <> []
          /\ names
             = List.filter
                 (fun name => bool_decide (model_get_relation w !! name = None))
                 (required_relations self)
          /\ w' = with_status
                    (BlockedStatus
                       ("Waiting for relation(s) to be created: "
                        +:+ join ", " names)) w
          /\ log = List.map EGetRelation (required_relations self)
                   ++ [ESetStatus
                         (BlockedStatus
                            ("Waiting for relation(s) to be created: "
                             +:+ join ", " names))]).
Proof.
  rewrite _relations_created_run.
  pose proof (fun e => first_raise_split (get_relation_error w)
                         (required_relations self) e) as Hsplit.
  fold (created_error self w) in Hsplit.
  pose proof (all_found self w) as Hfound.
  pose proof (missing_by_lookup self w) as Hnames.
  assert (Hraise :
            forall e,
              created_error self w = Some e
              <-> exists before name after,
                    required_relations self = before ++ name :: after
                    /\ (forall found, found ∈ before -> answers w found)
                    /\ ((e = KeyError /\ model_relations w !! name = None)
                        \/ (e = TooManyRelatedAppsError
                            /\ exists id id' rest,
                                 model_relations w !! name
                                 = Some (id :: id' :: rest)))).
  { intros e. rewrite Hsplit. split.
    - intros (before & name & after & Hl & Hbefore & Hname).
      exists before, name, after. split; [exact Hl|].
      split; [intros found Hin; now apply answers_error, Hbefore|].
      now apply get_relation_error_cases.
    - intros (before & name & after & Hl & Hbefore & Hname).
      exists before, name, after. split; [exact Hl|].
      split; [intros found Hin; now apply answers_error, Hbefore|].
      now apply get_relation_error_cases. }
  destruct (created_error self w) as [e0|] eqn:Ee.
  - eexists (Raise e0), w, (created_log self w). split; [reflexivity|].
    split.
    { rewrite (count_commands is_defer) by now intros [].
      now rewrite commands_created_log. }
    split.
    { intros e. rewrite <- Hraise. split; congruence. }
    split.
    { intros e before name after _ Hl Hbefore Hname.
      split; [reflexivity|].
      unfold created_log. rewrite Hl.
      destruct (get_relation_error w name) as [e'|] eqn:En;
        [|now apply answers_error in En].
      rewrite (reached_split _ before after name e');
        [apply concat_singletons | | exact En].
      intros found Hin. now apply answers_error, Hbefore. }
    split.
    { split; [discriminate|]. intros H. apply Hfound in H as [H _].
      discriminate. }
    split; discriminate.
  - rewrite (created_log_map self w Ee).
    assert (Hnoraise :
              forall e (b : bool),
                Return b = Raise e
                <-> exists before name after,
                      required_relations self = before ++ name :: after
                      /\ (forall found, found ∈ before -> answers w found)
                      /\ ((e = KeyError /\ model_relations w !! name = None)
                          \/ (e = TooManyRelatedAppsError
                              /\ exists id id' rest,
                                   model_relations w !! name
                                   = Some (id :: id' :: rest)))).
    { intros e b. rewrite <- Hraise. split; discriminate. }
    destruct (missing_relations self w) as [|name names] eqn:Em.
    + eexists (Return true), w, _. split; [reflexivity|].
      split.
      { rewrite (count_commands is_defer) by now intros [].
        rewrite <- (created_log_map self w Ee).
        now rewrite commands_created_log. }
      split; [intros e; apply Hnoraise|].
      split; [discriminate|].
      split; [split; [intros _; now apply Hfound | reflexivity]|].
      split; [intros _; split; reflexivity | discriminate].
    + eexists (Return false), _, _. split; [reflexivity|].
      split.
      { rewrite (count_commands is_defer) by now intros [].
        rewrite commands_app, <- (created_log_map self w Ee).
        now rewrite commands_created_log. }
      split; [intros e; apply Hnoraise|].
      split; [discriminate|].
      split.
      { split; [discriminate|]. intros H. apply Hfound in H as [_ H].
        discriminate. }
      split; [discriminate|]. intros _.
      exists (name :: names). rewrite <- Hnames.
      split; [discriminate|]. repeat split.
Qed.

(** X4.  [_relations_ready] raises only [TooManyRelatedAppsError], and
    exactly when some required endpoint holds more than one relation; it
    has then changed nothing.  Otherwise it returns, [True] exactly when
    [_relation_active] returns [True] for every required relation, and then
    leaves the host as it was and commands nothing; a required relation
    that does not exist keeps it from returning [True].  When it returns
    [False]
    its only command is to set the status to Waiting, with a message over
    exactly the required relations [_relation_active] is [False] for.  It
    reads at most one entry of relation data per required relation. *)
Theorem relations_ready_check (self : Orc8rBase) (w : World) :
  exists (o : outcome bool) (w' : World) (log : list Effect),
    _relations_ready self w = (o, w', log)
    /\ (forall e,
          o = Raise e ->
          e = TooManyRelatedAppsError /\ w' = w /\ commands log = [])
    /\ ((exists e, o = Raise e) <->
        exists name id id' rest,
          name ∈ required_relations self
          /\ model_relations w !! name = Some (id :: id' :: rest))
    /\ (o = Return true <->
        forall name, name ∈ required_relations self ->
                     fst (fst (_relation_active name w)) = Return true)
    /\ (forall name, name ∈ required_relations self ->
                     model_get_relation w !! name = None -> o <> Return true)
    /\ (o = Return true -> w' = w /\ commands log = [])
    /\ (o = Return false ->
        exists names,
          names <> []
          /\ (forall name,
                name ∈ names
                <-> name ∈ required_relations self
                    /\ fst (fst (_relation_active name w)) = Return false)
          /\ w' = with_status
                    (WaitingStatus
                       ("Waiting for relation(s) to be ready: "
                        +:+ join ", " names)) w
          /\ commands log
             = [ESetStatus
                  (WaitingStatus
                     ("Waiting for relation(s) to be ready: "
                      +:+ join ", " names))])
    /\ count is_read_data log <= length (required_relations self).
Proof.
  rewrite _relations_ready_run.
  pose proof (unready_relations_nil self w) as Hnil.
  pose proof (count_reads_ready_log self w) as Hreads.
  assert (Hmany :
            (exists e, ready_error self w = Some e)
            <-> exists name id id' rest,
                  name ∈ required_relations self
                  /\ model_relations w !! name = Some (id :: id' :: rest)).
  { split.
    - intros [e He]. apply first_raise_some in He as (name & Hin & He).
      apply relation_active_error_cases in He as (_ & id & id' & rest & H).
      now exists name, id, id', rest.
    - intros (name & id & id' & rest & Hin & H).
      destruct (ready_error self w) as [e|] eqn:Ee; [eauto|].
      pose proof (proj1 (first_raise_none _ _) Ee name Hin) as Hn.
      assert (Hs : relation_active_error w name = Some TooManyRelatedAppsError)
        by (apply relation_active_error_cases; eauto).
      congruence. }
  assert (Hmissing :
            forall name, name ∈ required_relations self ->
                         model_get_relation w !! name = None ->
                         unready_relations self w <> []).
  { intros name Hin Hnone Hu. apply Hnil in Hin; [|exact Hu].
    apply relation_ready_created in Hin. rewrite Hnone in Hin.
    destruct Hin as [? Hin]. discriminate. }
  destruct (ready_error self w) as [e0|] eqn:Ee.
  - eexists (Raise e0), w, (ready_log self w). split; [reflexivity|].
    split.
    { intros e H. injection H as <-.
      apply first_raise_some in Ee as (name & _ & He).
      apply relation_active_error_cases in He as [-> _].
      split; [reflexivity|]. split; [reflexivity | apply commands_ready_log]. }
    split; [split; [intros _; apply Hmany; eauto | eauto]|].
    split.
    { split; [discriminate|]. intros H.
      apply first_raise_some in Ee as (name & Hin & He).
      apply H, relation_active_returns in Hin as [Hin _]. congruence. }
    split; [intros; discriminate|].
    split; [discriminate|]. split; [discriminate | exact Hreads].
  - assert (Hreturns : forall name, name ∈ required_relations self ->
                                    relation_active_error w name = None)
      by now apply first_raise_none.
    assert (Hmem :
              forall name,
                name ∈ unready_relations self w
                <-> name ∈ required_relations self
                    /\ fst (fst (_relation_active name w)) = Return false).
    { intros name. unfold unready_relations.
      rewrite filter_elem_of, relation_active_returns, negb_true_iff.
      split; [intros [Hin Hr]; auto | intros [Hin [_ Hr]]; auto]. }
    assert (Hnone : (exists e, @None exn = Some e) -> False)
      by (intros [e H]; discriminate).
    destruct (unready_relations self w) as [|name names] eqn:Eu.
    + eexists (Return true), w, _. split; [reflexivity|].
      split; [discriminate|].
      split.
      { split; [intros [e H]; discriminate|].
        intros H. apply Hmany in H. now destruct Hnone. }
      split.
      { split; [|reflexivity]. intros _ name Hin.
        apply relation_active_returns.
        split; [now apply Hreturns | now apply Hnil]. }
      split; [intros name Hin Hn; now destruct (Hmissing name Hin Hn)|].
      split; [intros _; split; [reflexivity | apply commands_ready_log]|].
      split; [discriminate | exact Hreads].
    + eexists (Return false), _, _. split; [reflexivity|].
      split; [discriminate|].
      split.
      { split; [intros [e H]; discriminate|].
        intros H. apply Hmany in H. now destruct Hnone. }
      split.
      { split; [discriminate|]. intros H.
        assert (Hall : name :: names = []); [|discriminate].
        apply Hnil. intros n Hin. now apply relation_active_returns, H. }
      split; [discriminate|].
      split; [discriminate|].
      split.
      * intros _. exists (name :: names).
        split; [discriminate|]. split; [exact Hmem|]. split; [reflexivity|].
        now rewrite commands_app, commands_ready_log.
      * rewrite count_app. cbn. lia.
Qed.

(** ** Publishing the service status *)

(** X5.  [_update_relation_active_status] merges into the unit's bag, it
    does not replace it: afterwards the bag of that relation maps
    ["active"] to ["True"] or ["False"] as [is_active] says, every other key
    of the bag is as before, the counterpart units and their bags are as
    before, and every other relation is untouched.  A second write
    overwrites the first: the relations after two writes are those after
    the second write alone. *)
Theorem update_relation_active_status_merges (id : nat) (is_active : bool)
    (w : World) :
  exists w',
    _update_relation_active_status id is_active w
    = (Return tt, w',
       [EUpdateData id "active" (if is_active then "True" else "False")])
    /\ own_data (relation w' id) !! "active"
       = Some (if is_active then "True" else "False")
    /\ (forall key, key <> "active" ->
          own_data (relation w' id) !! key = own_data (relation w id) !! key)
    /\ units (relation w' id) = units (relation w id)
    /\ data (relation w' id) = data (relation w id)
    /\ (forall other, other <> id -> relation w' other = relation w other)
    /\ (forall again : bool,
          exists after_both after_second log,
            _update_relation_active_status id again w'
            = (Return tt, after_both, log)
            /\ _update_relation_active_status id again w
               = (Return tt, after_second, log)
            /\ forall j, relation after_both j = relation after_second j).
Proof.
  exists (with_own_data id "active" (str_of_bool is_active) w).
  split; [reflexivity|].
  split; [apply own_data_written|].
  split; [intros key Hne; now apply own_data_kept|].
  destruct (same_counterparts_with_own_data id "active"
              (str_of_bool is_active) w) as [_ Hsame].
  destruct (Hsame id) as [Hu Hd].
  split; [exact Hu|]. split; [exact Hd|].
  split; [intros other Hne; now apply with_own_data_other|].
  intros again. eexists _, _, _. split; [reflexivity|]. split; [reflexivity|].
  intros j. apply with_own_data_twice.
Qed.

(** X6.  [_update_relations] changes neither the plan nor the status.  On
    a unit that is not the leader it does nothing.  On the leader of a
    charm without the relation named after it, it raises [KeyError] having
    changed nothing.  On the leader otherwise, with [running] what
    [_service_is_running] returns, it writes [str(running)] under
    ["active"] into the unit's bag of each relation held under the charm's
    name, in order; it touches no other relation, no other key of those
    bags, and nothing the counterpart units published. *)
Theorem update_relations_publishes (self : Orc8rBase) (w : World) :
  exists o w' log running probe,
    _update_relations self w = (o, w', log)
    /\ _service_is_running self w = (Return running, w, probe)
    /\ plan w' = plan w
    /\ status w' = status w
    /\ (leader w = false -> o = Return tt /\ w' = w /\ commands log = [])
    /\ (leader w = true ->
        model_relations w !! meta_name (charm self) = None ->
        o = Raise KeyError /\ w' = w /\ commands log = [])
    /\ (leader w = true ->
        forall ids,
          model_relations w !! meta_name (charm self) = Some ids ->
          o = Return tt
          /\ commands log
             = List.map
                 (fun id =>
                    EUpdateData id "active"
                      (if running then "True" else "False"))
                 ids
          /\ (forall id, id ∈ ids ->
                own_data (relation w' id) !! "active"
                = Some (if running then "True" else "False"))
          /\ (forall id, id ∉ ids -> relation w' id = relation w id)
          /\ (forall id,
                units (relation w' id) = units (relation w id)
                /\ data (relation w' id) = data (relation w id)
                /\ forall key, key <> "active" ->
                     own_data (relation w' id) !! key
                     = own_data (relation w id) !! key)).
Proof.
  exists (update_relations_outcome self w), (update_relations_world self w),
    (update_relations_log self w), (service_running self w),
    (service_probe_log self w).
  split; [apply _update_relations_run|].
  split; [apply _service_is_running_run|].
  destruct (update_relations_world_host self w) as (_ & _ & _ & Hp & Hs).
  split; [exact Hp|]. split; [exact Hs|].
  rewrite commands_update_relations_log.
  unfold update_relations_outcome, update_relations_world, published,
    own_relations.
  split; [intros ->; repeat split|].
  split; [intros -> ->; repeat split|].
  intros -> ids ->. cbn [default].
  split; [reflexivity|]. split; [reflexivity|].
  split; [intros id Hin; now apply publish_written|].
  split; [intros id Hin; now apply publish_other|].
  intros id.
  destruct (publish_counterparts (str_of_bool (service_running self w)) ids w id)
    as [Hu Hd].
  split; [exact Hu|]. split; [exact Hd|].
  intros key Hne. now apply publish_kept.
Qed.

(** ** Invariants of the lifecycle handler *)

(** X7.  Whatever the handler of pebble-ready and upgrade-charm does, also
    when it raises, it leaves leadership, the reachability of the container
    and the relations of the model as they were; it changes no entry of the
    plan other than that of the named service; it changes nothing the
    counterpart units published and no key other than ["active"] in the
    unit's own bags; and it leaves every relation that is not held under
    the charm's own name untouched. *)
Theorem configure_workload_frame (self : Orc8rBase) (w : World) :
  exists o w' log,
    _configure_workload self w = (o, w', log)
    /\ leader w' = leader w
    /\ connectable w' = connectable w
    /\ model_get_relation w' = model_get_relation w
    /\ model_relations w' = model_relations w
    /\ (forall name, name <> service_name self ->
          plan w' !! name = plan w !! name)
    /\ (forall id,
          units (relation w' id) = units (relation w id)
          /\ data (relation w' id) = data (relation w id)
          /\ (forall key, key <> "active" ->
                own_data (relation w' id) !! key
                = own_data (relation w id) !! key)
          /\ (id ∉ own_relations self w -> relation w' id = relation w id)).
Proof.
  eexists _, _, _. split; [apply _configure_workload_run|].
  destruct (configure_workload_cases self w)
    as [(e & _ & _ & -> & _)
       |[(_ & _ & -> & _)|(s & _ & _ & _ & -> & _)]];
    [repeat split| |repeat split].
  destruct (configure_charm_world_frame self w)
    as (Hl & Hc & Hg & Hm & Hp & Hrel).
  split; [exact Hl|]. split; [exact Hc|]. split; [exact Hg|].
  split; [exact Hm|]. split.
  - intros name Hne. now apply configure_charm_world_other.
  - intros id. destruct (Hrel id) as (Hu & Hd & Hk & Ho & _).
    repeat split; assumption.
Qed.

(** X8.  Every call of the handler of pebble-ready and upgrade-charm
    applies at most one layer and restarts exactly as often as it applies.
    When it returns, either it has deferred the event exactly once, applied
    no layer, written no relation data, and changed nothing but the status,
    now Blocked or Waiting; or it has not deferred and the status is
    Active.  When it raises, either the lookup of a required relation
    raised, [KeyError] or [TooManyRelatedAppsError], and the handler has
    commanded nothing and changed nothing, not even the status; or the
    exception is [KeyError] from the lookup of the charm's own relation on
    the leader: every required relation was ready, the layer has
    been applied, no relation data written, the event not deferred, and the
    status is left at Maintenance. *)
Theorem configure_workload_defers_or_activates (self : Orc8rBase) (w : World) :
  exists o w' log,
    _configure_workload self w = (o, w', log)
    /\ count is_add_layer log = count is_restart log
    /\ count is_add_layer log <= 1
    /\ (o = Return tt ->
        (count is_defer log = 1
         /\ count is_add_layer log = 0
         /\ count is_update_data log = 0
         /\ (exists msg,
               status w' = BlockedStatus msg \/ status w' = WaitingStatus msg)
         /\ w' = with_status (status w') w)
        \/ (count is_defer log = 0 /\ status w' = ActiveStatus))
    /\ (forall e, o = Raise e ->
          ((e = KeyError \/ e = TooManyRelatedAppsError)
           /\ (exists name, name ∈ required_relations self
                            /\ fst (fst (get_relation name w)) = Raise e)
           /\ w' = w
           /\ commands log = [])
          \/ (e = KeyError
              /\ (forall name, name ∈ required_relations self ->
                               relation_ready w name = true)
              /\ leader w = true
              /\ model_relations w !! meta_name (charm self) = None
              /\ count is_defer log = 0
              /\ count is_add_layer log = 1
              /\ count is_update_data log = 0
              /\ status w' = MaintenanceStatus "Configuring pod")).
Proof.
  eexists _, _, _. split; [apply _configure_workload_run|].
  rewrite (count_commands is_add_layer), (count_commands is_restart),
    (count_commands is_defer), (count_commands is_update_data)
    by now intros [].
  destruct (configure_workload_cases self w)
    as [(e0 & Hce & He0 & -> & -> & ->)
       |[(_ & Hready & -> & -> & ->)|(s & _ & _ & Hs & -> & -> & ->)]].
  - split; [reflexivity|]. split; [cbn; lia|].
    split; [discriminate|].
    intros e H. injection H as <-. left.
    split; [exact He0|]. split; [|split; reflexivity].
    apply first_raise_some in Hce as (name & Hin & Hname).
    exists name. split; [exact Hin|].
    unfold get_relation_error in Hname. cbn [get_relation fst].
    destruct (get_relation_outcome w name); congruence.
  - rewrite <- !count_commands by now intros [].
    destruct (configure_charm_log_counts self w) as (Ha & Hr & Hd & Hu).
    assert (Hu' : count is_update_data (configure_charm_log self w)
                  = length (if applies self w
                            then published self (layered self w)
                            else []))
      by (unfold count; now rewrite Hu).
    rewrite Hu', Ha, Hr, Hd.
    rewrite configure_charm_status.
    split; [reflexivity|].
    split; [destruct (applies self w); lia|].
    split.
    + intros Hout. rewrite Hout. destruct (connectable w) eqn:Ec.
      * right. split; reflexivity.
      * left. unfold applies. rewrite Ec. cbn [andb length].
        repeat split. { eexists. right. reflexivity. }
        unfold configure_charm_world. now rewrite Ec.
    + intros e Hout. rewrite Hout. right.
      destruct (configure_charm_raises self w e Hout) as (-> & Happ & Hl & Hm).
      rewrite Happ. unfold applies in Happ.
      apply andb_true_iff in Happ as [-> _].
      unfold published, own_relations.
      change (leader (layered self w)) with (leader w).
      change (model_relations (layered self w)) with (model_relations w).
      rewrite Hl, Hm. repeat split. exact Hready.
  - split; [reflexivity|]. split; [cbn; lia|].
    split; [|discriminate].
    intros _. left. repeat split. exact Hs.
Qed.

(** X9.  The handler of pebble-ready and upgrade-charm returns with the
    unit Active exactly when [_relation_active] is [True] for every required
    relation, the container can be connected to, and the lookup of the
    charm's own relation cannot fail (the plan already equals the layer, or
    the unit is not the leader, or the charm declares the relation).  When
    it returns with the unit Active, the plan holds the named service,
    [_service_is_running] returns [True], and, where no layer under another
    label defines the named service, the plan holds it with override
    [replace], startup [enabled], the startup command
    and the computed environment. *)
Theorem configure_workload_active_iff (self : Orc8rBase) (w : World) :
  exists o w' log,
    _configure_workload self w = (o, w', log)
    /\ (o = Return tt /\ status w' = ActiveStatus <->
        (forall name, name ∈ required_relations self ->
                      fst (fst (_relation_active name w)) = Return true)
        /\ connectable w = true
        /\ (plan w = services (_pebble_layer self)
            \/ leader w = false
            \/ is_Some (model_relations w !! meta_name (charm self))))
    /\ (o = Return tt ->
        status w' = ActiveStatus ->
        is_Some (plan w' !! service_name self)
        /\ _service_is_running self w'
           = (Return true, w', [ECanConnect; EGetService (service_name self)])
        /\ (unrivalled self w ->
            plan w' !! service_name self
            = Some {| override := "replace";
                      summary := service_name self;
                      startup := "enabled";
                      command := startup_command self;
                      environment := _environment_variables self |})).
Proof.
  eexists _, _, _. split; [apply _configure_workload_run|].
  rewrite ready_by_relation_active.
  destruct (configure_workload_cases self w)
    as [(e0 & Hce & _ & -> & -> & _)
       |[(_ & Hready & -> & -> & _)|(s & _ & Hnot & (msg & Hs) & -> & -> & _)]].
  - split; [|discriminate].
    split; [intros [H _]; discriminate|].
    intros (Hready & _). destruct (all_ready self w Hready) as [H _].
    congruence.
  - rewrite configure_charm_status.
    pose proof (configure_charm_returns_iff self w) as Hret.
    split.
    + split.
      * intros [Ho Hst]. rewrite Ho in Hst.
        destruct (connectable w) eqn:Ec; [|discriminate].
        split; [exact Hready|]. split; [reflexivity|].
        destruct Hret as [Hret _].
        destruct (Hret Ho) as [H|H]; [discriminate | exact H].
      * intros (_ & Hc & Hcases). rewrite Hc.
        destruct Hret as [_ Hret]. rewrite Hret; [auto | now right].
    + intros Ho Hst. rewrite Ho in Hst.
      destruct (connectable w) eqn:Ec; [|discriminate].
      pose proof (configure_charm_world_registered self w Ec) as Hreg.
      split; [exact Hreg|].
      split.
      { rewrite _service_is_running_run.
        unfold service_running, service_registered, service_probe_log.
        destruct (configure_charm_world_frame self w) as (_ & -> & _).
        rewrite Ec. now rewrite bool_decide_eq_true_2 by exact Hreg. }
      intros Hun. rewrite <- pebble_layer_service.
      destruct (configure_charm_world_frame self w) as (_ & _ & _ & _ & -> & _).
      destruct (applies self w) eqn:Ea; [now apply layered_unrivalled|].
      now rewrite (applies_false self w Ec Ea).
  - cbn [status with_status]. split.
    + split; [intros [_ H]; destruct Hs as [->| ->]; discriminate|].
      intros (Hready & _). destruct (all_ready self w Hready) as (_ & Hm & Hu).
      destruct Hnot; contradiction.
    + intros _ H. destruct Hs as [->| ->]; discriminate.
Qed.

(** X10.  The handler of pebble-ready and upgrade-charm does not look at
    the status the unit has: started from two hosts
    that differ only in the unit status, it makes the same calls and returns
    or raises the same.  It replaces the status, and so leaves the same
    host, unless the lookup of a required relation raised, in which case
    each host is left as it was.  In particular handling a
    deferred event again on an otherwise unchanged host repeats the first
    handling. *)
Theorem configure_workload_ignores_status (self : Orc8rBase) (w : World)
    (s : Status) :
  exists o w' log w'',
    _configure_workload self w = (o, w', log)
    /\ _configure_workload self (with_status s w) = (o, w'', log)
    /\ ((forall name, name ∈ required_relations self -> answers w name) ->
        w'' = w')
    /\ (w'' = w'
        \/ (exists e, o = Raise e) /\ w' = w /\ w'' = with_status s w).
Proof.
  exists (configure_workload_outcome self w),
    (configure_workload_world self w), (configure_workload_log self w),
    (configure_workload_world self (with_status s w)).
  split; [apply _configure_workload_run|].
  split; [rewrite _configure_workload_run; reflexivity|].
  unfold configure_workload_world, configure_workload_outcome.
  change (created_error self (with_status s w)) with (created_error self w).
  change (missing_relations self (with_status s w))
    with (missing_relations self w).
  change (unready_relations self (with_status s w))
    with (unready_relations self w).
  destruct (created_error self w) as [e|] eqn:Ee.
  - split.
    + intros Hanswers. rewrite (answers_created self w Hanswers) in Ee.
      discriminate.
    + right. split; [eauto|]. split; reflexivity.
  - assert (Hsame :
              match missing_relations self w with
              | [] =>
                  match unready_relations self w with
                  | [] => configure_charm_world self (with_status s w)
                  | names =>
                      with_status (WaitingStatus (ready_message names))
                        (with_status s w)
                  end
              | names =>
                  with_status (BlockedStatus (created_message names))
                    (with_status s w)
              end
              = match missing_relations self w with
                | [] =>
                    match unready_relations self w with
                    | [] => configure_charm_world self w
                    | names =>
                        with_status (WaitingStatus (ready_message names)) w
                    end
                | names =>
                    with_status (BlockedStatus (created_message names)) w
                end).
    { destruct (missing_relations self w); [|reflexivity].
      destruct (unready_relations self w); reflexivity. }
    split; [intros _; exact Hsame | left; exact Hsame].
Qed.

(** X11.  The handler of pebble-ready and upgrade-charm never publishes
    ["False"]: every write into relation data it makes is of ["True"] under
    ["active"], by the leader, into a relation held under the charm's own
    name, in a call that applied the layer; and ["True"] is what the bag
    holds when the handler is done. *)
Theorem configure_workload_publishes_true (self : Orc8rBase) (w : World) :
  exists o w' log,
    _configure_workload self w = (o, w', log)
    /\ forall id key value,
         In (EUpdateData id key value) log ->
         key = "active" /\ value = "True"
         /\ leader w = true
         /\ id ∈ own_relations self w
         /\ count is_add_layer log = 1
         /\ own_data (relation w' id) !! "active" = Some "True".
Proof.
  eexists _, _, _. split; [apply _configure_workload_run|].
  intros id key value Hin.
  assert (Hupd : In (EUpdateData id key value)
                   (List.filter is_update_data
                      (commands (configure_workload_log self w)))).
  { rewrite <- filter_commands by now intros [].
    apply filter_In. split; [exact Hin | reflexivity]. }
  rewrite (count_commands is_add_layer) by now intros [].
  destruct (configure_workload_cases self w)
    as [(e0 & _ & _ & _ & _ & Hcmd)
       |[(_ & _ & -> & _ & Hcmd)|(s & _ & _ & _ & _ & _ & Hcmd)]];
    rewrite Hcmd in *; [destruct Hupd| |destruct Hupd].
  rewrite <- count_commands by now intros [].
  rewrite <- filter_commands in Hupd by now intros [].
  destruct (configure_charm_log_counts self w) as (Ha & _ & _ & Hu).
  rewrite Ha. rewrite Hu in Hupd.
  destruct (applies self w) eqn:Eapp; [|destruct Hupd].
  assert (Hc : connectable w = true).
  { unfold applies in Eapp. now apply andb_true_iff in Eapp as [-> _]. }
  unfold published in Hupd.
  change (leader (layered self w)) with (leader w) in Hupd.
  destruct (leader w) eqn:El; [|destruct Hupd].
  rewrite (layered_registered self w Hc) in Hupd.
  apply in_map_iff in Hupd as (id' & Heq & Hid).
  injection Heq as -> <- <-.
  apply list_elem_of_In in Hid.
  change (own_relations self (layered self w)) with (own_relations self w)
    in Hid.
  repeat split; try assumption.
  now apply configure_charm_world_published.
Qed.

(** X12.  On the leader of a charm that does not declare the relation
    named after it, with every required relation ready, the container
    connectable and a plan that differs from the layer, the handler of
    pebble-ready and upgrade-charm raises [KeyError] after it has applied
    the layer and restarted the service: the status stays at Maintenance,
    the layer of the container's label holds the computed entry, every
    other entry of the plan is as it was, no relation is written.  If the
    plan held no
    other service and no layer under another label defines the named one,
    handling the event again then finds the plan equal to
    the layer and ends Active, again without writing any relation data. *)
Theorem configure_workload_undeclared_relation (self : Orc8rBase) (w : World) :
  leader w = true ->
  model_relations w !! meta_name (charm self) = None ->
  (forall name, name ∈ required_relations self -> relation_ready w name = true) ->
  connectable w = true ->
  plan w <> services (_pebble_layer self) ->
  exists w' log,
    _configure_workload self w = (Raise KeyError, w', log)
    /\ commands log
       = [ESetStatus (MaintenanceStatus "Configuring pod");
          EAddLayer (container_name self) (_pebble_layer self) true;
          ERestart (service_name self);
          ELogInfo ("Restarted container " +:+ service_name self)]
    /\ status w' = MaintenanceStatus "Configuring pod"
    /\ (exists entries,
          (container_name self, entries) ∈ layers w'
          /\ entries !! service_name self
             = services (_pebble_layer self) !! service_name self)
    /\ (forall name, name <> service_name self ->
                     plan w' !! name = plan w !! name)
    /\ relation w' = relation w
    /\ (unrivalled self w ->
        (forall name, name <> service_name self -> plan w !! name = None) ->
        plan w' = services (_pebble_layer self)
        /\ exists w'' log',
             _configure_workload self w' = (Return tt, w'', log')
             /\ commands log'
                = [ESetStatus (MaintenanceStatus "Configuring pod");
                   ESetStatus ActiveStatus]
             /\ status w'' = ActiveStatus
             /\ relation w'' = relation w).
Proof.
  intros Hl Hm Hready Hc Hdiff.
  destruct (configure_workload_ready self w Hready) as (Hw & Hlog & Hout).
  assert (Hraise : configure_charm_outcome self w = Raise KeyError).
  { unfold configure_charm_outcome, update_relations_outcome.
    change (leader (layered self w)) with (leader w).
    change (model_relations (layered self w)) with (model_relations w).
    rewrite Hc, Hl, Hm. now rewrite bool_decide_eq_true_2 by assumption. }
  assert (Hworld : configure_workload_world self w = layered self w).
  { rewrite Hw. unfold configure_charm_world. rewrite Hc, Hraise.
    rewrite bool_decide_eq_true_2 by assumption. cbn [conclude].
    unfold update_relations_world, own_relations.
    change (leader (layered self w)) with (leader w).
    change (model_relations (layered self w)) with (model_relations w).
    now rewrite Hl, Hm. }
  exists (configure_workload_world self w), (configure_workload_log self w).
  split; [rewrite _configure_workload_run, Hout, Hraise; reflexivity|].
  split.
  { rewrite Hlog, commands_configure_charm_log, Hc, Hraise.
    rewrite bool_decide_eq_true_2 by assumption.
    unfold published, own_relations.
    change (leader (layered self w)) with (leader w).
    change (model_relations (layered self w)) with (model_relations w).
    now rewrite Hl, Hm. }
  rewrite Hworld.
  split; [reflexivity|]. split; [apply layered_holds|].
  split; [intros name Hne; now apply layered_other|].
  split; [reflexivity|].
  intros Hun Honly.
  pose proof (layered_plan self w Hun Honly) as Hplan.
  split; [exact Hplan|].
  assert (Hsame : same_counterparts w (layered self w))
    by now apply same_counterparts_fields.
  destruct (checks_same self w (layered self w) Hsame)
    as (Hm1 & Hu1 & _ & He1 & _).
  destruct (all_ready self w Hready) as (He0 & Hm0 & Hu0).
  rewrite Hm0 in Hm1. rewrite Hu0 in Hu1. rewrite He0 in He1.
  destruct (configure_charm_unchanged self (layered self w) Hc Hplan)
    as (Hw2 & Hlog2 & Hout2).
  exists (configure_workload_world self (layered self w)),
    (configure_workload_log self (layered self w)).
  split.
  { apply configure_workload_returns. unfold configure_workload_outcome.
    rewrite He1, Hm1, Hu1. exact Hout2. }
  split; [rewrite commands_configure_workload_log, He1, Hm1, Hu1; exact Hlog2|].
  unfold configure_workload_world. rewrite He1, Hm1, Hu1, Hw2.
  split; reflexivity.
Qed.

(** X13.  In a container whose plan holds a service under another name,
    the handler of pebble-ready and upgrade-charm applies the layer and
    restarts the service on every event it gets as far as comparing on
    (every required relation ready, the container connectable, the charm's
    relation declared on the leader): the other service stays in the plan,
    so the conditions hold again for the next event. *)
Theorem configure_workload_shared_container (self : Orc8rBase) (w : World)
    (other : string) :
  other <> service_name self ->
  is_Some (plan w !! other) ->
  (leader w = true -> provides_own_relation self w) ->
  (forall name, name ∈ required_relations self -> relation_ready w name = true) ->
  connectable w = true ->
  exists w' log,
    _configure_workload self w = (Return tt, w', log)
    /\ count is_add_layer log = 1
    /\ count is_restart log = 1
    /\ status w' = ActiveStatus
    /\ plan w' !! other = plan w !! other
    /\ (leader w' = true -> provides_own_relation self w')
    /\ (forall name, name ∈ required_relations self ->
                     relation_ready w' name = true)
    /\ connectable w' = true.
Proof.
  intros Hne Hother Hprovides Hready Hc.
  destruct (configure_workload_ready self w Hready) as (Hw & Hlog & Hout).
  pose proof (configure_charm_completes self w Hprovides) as Hret.
  assert (Hdiff : plan w <> services (_pebble_layer self)).
  { intros Heq. rewrite Heq in Hother.
    rewrite pebble_layer_other in Hother by assumption.
    destruct Hother as [? Hother]. discriminate. }
  assert (Happ : applies self w = true).
  { unfold applies. rewrite Hc. now apply bool_decide_eq_true_2. }
  exists (configure_workload_world self w), (configure_workload_log self w).
  split; [apply configure_workload_returns; now rewrite Hout|].
  rewrite (count_commands is_add_layer), (count_commands is_restart)
    by now intros [].
  rewrite Hlog.
  rewrite <- (count_commands is_add_layer), <- (count_commands is_restart)
    by now intros [].
  destruct (configure_charm_log_counts self w) as (Ha & Hr & _ & _).
  rewrite Ha, Hr, Happ, Hw.
  split; [reflexivity|]. split; [reflexivity|].
  split; [rewrite configure_charm_status, Hc, Hret; reflexivity|].
  destruct (configure_charm_world_frame self w)
    as (Hl' & Hc' & Hg' & Hm' & Hp' & Hrel').
  split; [now apply configure_charm_world_other|].
  split; [unfold provides_own_relation; rewrite Hl', Hm'; exact Hprovides|].
  split; [|now rewrite Hc'].
  intros name Hin. rewrite (relation_ready_same w); [now apply Hready|].
  apply same_counterparts_configure_charm.
Qed.

(** ** The relation-joined handler, further *)

(** X14.  The handler of relation-joined always returns.  It changes
    neither status nor plan nor any other part of the host than the unit's
    own bag of the joined relation, and in that bag only the key
    ["active"]; every other relation is untouched.  The only commands it
    issues are one write of ["active"] into the joined relation, at most
    once, and a defer, at most once. *)
Theorem on_relation_joined_frame (self : Orc8rBase) (event_relation : nat)
    (w : World) :
  exists w' log,
    _on_relation_joined self event_relation w = (Return tt, w', log)
    /\ status w' = status w
    /\ plan w' = plan w
    /\ leader w' = leader w
    /\ connectable w' = connectable w
    /\ model_get_relation w' = model_get_relation w
    /\ model_relations w' = model_relations w
    /\ (forall id, id <> event_relation -> relation w' id = relation w id)
    /\ units (relation w' event_relation) = units (relation w event_relation)
    /\ data (relation w' event_relation) = data (relation w event_relation)
    /\ (forall key, key <> "active" ->
          own_data (relation w' event_relation) !! key
          = own_data (relation w event_relation) !! key)
    /\ (forall e, In e (commands log) ->
          e = EDefer
          \/ exists value, e = EUpdateData event_relation "active" value)
    /\ count is_update_data log <= 1
    /\ count is_defer log <= 1.
Proof.
  exists (relation_joined_world self event_relation w),
    (relation_joined_log self event_relation w).
  split; [apply _on_relation_joined_run|].
  rewrite (count_commands is_update_data), (count_commands is_defer)
    by now intros [].
  rewrite commands_relation_joined_log.
  unfold relation_joined_world. destruct (leader w) eqn:El.
  - destruct (same_counterparts_with_own_data event_relation "active"
                (str_of_bool (service_running self w)) w) as [_ Hsame].
    destruct (Hsame event_relation) as [Hu Hd].
    split; [reflexivity|]. split; [reflexivity|]. split; [exact El|].
    split; [reflexivity|]. split; [reflexivity|]. split; [reflexivity|].
    split; [intros id Hne; now apply with_own_data_other|].
    split; [exact Hu|]. split; [exact Hd|].
    split; [intros key Hne; now apply own_data_kept|].
    split.
    + intros e [<-|Hin]; [right; eauto|].
      destruct (service_running self w); [destruct Hin|].
      destruct Hin as [<-|[]]. now left.
    + destruct (service_running self w); cbn; lia.
  - repeat split; try (cbn; lia); try exact El;
      try match goal with H : In _ [] |- _ => destruct H end.
Qed.

(** X15.  Handling the same relation-joined event again, with nothing
    changed on the host in between, makes exactly the calls of the first
    handling (a deferred event is deferred again) and leaves every relation,
    the status and the plan as the first handling left them. *)
Theorem on_relation_joined_replay (self : Orc8rBase) (event_relation : nat)
    (w : World) :
  exists w1 log1 w2 log2,
    _on_relation_joined self event_relation w = (Return tt, w1, log1)
    /\ _on_relation_joined self event_relation w1 = (Return tt, w2, log2)
    /\ log2 = log1
    /\ (forall id, relation w2 id = relation w1 id)
    /\ status w2 = status w1
    /\ plan w2 = plan w1.
Proof.
  exists (relation_joined_world self event_relation w),
    (relation_joined_log self event_relation w),
    (relation_joined_world self event_relation
       (relation_joined_world self event_relation w)),
    (relation_joined_log self event_relation
       (relation_joined_world self event_relation w)).
  split; [apply _on_relation_joined_run|].
  split; [apply _on_relation_joined_run|].
  unfold relation_joined_world, relation_joined_log.
  destruct (leader w) eqn:El.
  - cbn [leader with_own_data with_relation]. rewrite El.
    rewrite service_running_with_own_data.
    split; [reflexivity|].
    split; [intros id; apply with_own_data_twice|].
    split; reflexivity.
  - rewrite El. repeat split.
Qed.

(** X16.  After a call of the handler of pebble-ready and upgrade-charm
    that returned and left the unit Active, the handler of relation-joined
    never defers and leaves the status Active; on the leader it writes
    ["True"] under ["active"] into the unit's bag of the joined relation,
    and on any other unit it changes nothing. *)
Theorem relation_joined_after_configure (self : Orc8rBase)
    (event_relation : nat) (w w1 : World) (log1 : list Effect) :
  _configure_workload self w = (Return tt, w1, log1) ->
  status w1 = ActiveStatus ->
  exists w2 log2,
    _on_relation_joined self event_relation w1 = (Return tt, w2, log2)
    /\ status w2 = ActiveStatus
    /\ count is_defer log2 = 0
    /\ (leader w = true ->
        commands log2 = [EUpdateData event_relation "active" "True"]
        /\ own_data (relation w2 event_relation) !! "active" = Some "True")
    /\ (leader w = false -> w2 = w1 /\ commands log2 = []).
Proof.
  intros Hrun Hactive.
  rewrite _configure_workload_run in Hrun. injection Hrun as Hout <- _.
  destruct (configure_workload_active self w Hout Hactive)
    as (Hw & Hc & _).
  assert (Hrunning :
            service_running self (configure_workload_world self w) = true).
  { unfold service_running, service_registered. rewrite Hw.
    destruct (configure_charm_world_frame self w) as (_ & -> & _).
    rewrite Hc. cbn [andb]. apply bool_decide_eq_true_2.
    now apply configure_charm_world_registered. }
  assert (Hleader : leader (configure_workload_world self w) = leader w).
  { rewrite Hw. apply configure_charm_world_frame. }
  exists (relation_joined_world self event_relation
            (configure_workload_world self w)),
    (relation_joined_log self event_relation
       (configure_workload_world self w)).
  split; [apply _on_relation_joined_run|].
  rewrite (count_commands is_defer) by now intros [].
  rewrite commands_relation_joined_log.
  unfold relation_joined_world. rewrite Hleader, Hrunning.
  destruct (leader w).
  - split; [exact Hactive|]. split; [reflexivity|].
    split; [|discriminate]. intros _.
    split; [reflexivity | apply own_data_written].
  - split; [exact Hactive|]. split; [reflexivity|].
    split; [discriminate|]. intros _. split; reflexivity.
Qed.

(** ** The theorems at the charms of the test suite *)

Lemma whatever_is_ready :
  forall name,
    name ∈ required_relations dummy_with_required_relation ->
    relation_ready (related_world true true {["active" := "True"]}) name = true.
Proof.
  intros name Hin. apply list_elem_of_singleton in Hin. subst name.
  vm_compute. reflexivity.
Defined.

Lemma dummy_provides (is_leader connected : bool)
    (signal : gmap string string) :
  provides_own_relation dummy_with_required_relation
    (related_world is_leader connected signal).
Proof. exists [0]. vm_compute. reflexivity. Defined.


Lemma no_relation_required (w : World) :
  forall name, name ∈ required_relations dummy -> relation_ready w name = true.
Proof. intros name Hin. now apply not_elem_of_nil in Hin. Defined.


(** The same unit reconfigures: the relation of the charm is told. *)
Lemma configure_workload_reconfigures_witness :
  exists w' log,
    _configure_workload dummy_with_required_relation
      (related_world true true {["active" := "True"]})
    = (Return tt, w', log)
    /\ own_data (relation w' 0) !! "active" = Some "True".
Proof.
  destruct (configure_workload_reconfigures dummy_with_required_relation
              (related_world true true {["active" := "True"]})
              (fun _ => dummy_provides _ _ _)
              whatever_is_ready eq_refl)
    as (w' & log & Hrun & Hdiff & _).
  exists w', log. split; [exact Hrun|].
  destruct Hdiff as (_ & _ & _ & _ & Hwritten & _).
  - intros Heq. apply (f_equal (fun m => m !! "magma-orc8r-dummy")) in Heq.
    vm_compute in Heq. discriminate.
  - apply Hwritten; [reflexivity|]. vm_compute. left.
Defined.




(** Pebble-ready before the container answers, on the charm without a
    required relation. *)
Lemma configure_workload_unreachable_witness :
  exists w' log,
    _configure_workload dummy fresh_world = (Return tt, w', log)
    /\ count is_defer log = 1
    /\ status w' = WaitingStatus "Waiting for container to be ready...".
Proof.
  destruct (configure_workload_unreachable dummy fresh_world eq_refl)
    as (w' & log & Hrun & Hdefer & _ & _ & Hst).
  - intros name Hin. now apply not_elem_of_nil in Hin.
  - exists w', log. repeat split; assumption.
Defined.

(** A unit that is not the leader, on either event. *)
Lemma non_leader_never_writes_witness :
  (exists o w' log,
     _configure_workload dummy (related_world false true ∅) = (o, w', log)
     /\ count is_update_data log = 0
     /\ relation w' = relation (related_world false true ∅))
  /\ (exists w' log,
        _on_relation_joined dummy 0 (related_world false true ∅)
        = (Return tt, w', log)
        /\ count is_update_data log = 0
        /\ relation w' = relation (related_world false true ∅)).
Proof.
  destruct (non_leader_never_writes dummy 0 (related_world false true ∅)
              eq_refl)
    as [(o & w' & log & Hrun & _ & Hcount & Hrel) Hjoined].
  split; [|exact Hjoined].
  exists o, w', log. repeat split; assumption.
Defined.

(** ** The further theorems at the charms of the test suite *)

Lemma configure_workload_undeclared_relation_witness :
  exists w' log,
    _configure_workload standalone standalone_leader_world
    = (Raise KeyError, w', log)
    /\ status w' = MaintenanceStatus "Configuring pod".
Proof.
  assert (Hundeclared :
            model_relations standalone_leader_world
              !! meta_name (charm standalone) = None)
    by (vm_compute; reflexivity).
  assert (Hdiff : plan standalone_leader_world
                  <> services (_pebble_layer standalone)).
  { intros Heq. apply (f_equal (fun m => m !! "magma-orc8r-dummy")) in Heq.
    vm_compute in Heq. discriminate. }
  destruct (configure_workload_undeclared_relation standalone
              standalone_leader_world eq_refl Hundeclared
              (fun name Hin => False_ind _ (not_elem_of_nil name Hin))
              eq_refl Hdiff)
    as (w' & log & Hrun & _ & Hst & _).
  exists w', log. split; assumption.
Defined.

Lemma configure_workload_shared_container_witness :
  exists w' log,
    _configure_workload dummy shared_container_world = (Return tt, w', log)
    /\ count is_add_layer log = 1
    /\ count is_restart log = 1
    /\ is_Some (plan w' !! "metrics-exporter").
Proof.
  assert (Hne : "metrics-exporter" <> service_name dummy)
    by (vm_compute; discriminate).
  assert (Hother : is_Some (plan shared_container_world !! "metrics-exporter"))
    by (eexists; vm_compute; reflexivity).
  assert (Hfollower : leader shared_container_world = true ->
                      provides_own_relation dummy shared_container_world)
    by (intros H; vm_compute in H; discriminate).
  destruct (configure_workload_shared_container dummy shared_container_world
              "metrics-exporter" Hne Hother Hfollower
              (no_relation_required shared_container_world) eq_refl)
    as (w' & log & Hrun & Hadd & Hres & _ & Hkept & _).
  exists w', log. rewrite Hkept. repeat split; assumption.
Defined.

Lemma relation_joined_after_configure_witness :
  exists w2 log2,
    _on_relation_joined dummy_with_required_relation 0
      (configure_workload_world dummy_with_required_relation
         (related_world true true {["active" := "True"]}))
    = (Return tt, w2, log2)
    /\ commands log2 = [EUpdateData 0 "active" "True"].
Proof.
  assert (Hactive :
            status (configure_workload_world dummy_with_required_relation
                      (related_world true true {["active" := "True"]}))
            = ActiveStatus)
    by (vm_compute; reflexivity).
  assert (Hcreated :
            created_error dummy_with_required_relation
              (related_world true true {["active" := "True"]})
            = None)
    by (vm_compute; reflexivity).
  destruct (relation_joined_after_configure dummy_with_required_relation 0
              (related_world true true {["active" := "True"]})
              (configure_workload_world dummy_with_required_relation
                 (related_world true true {["active" := "True"]}))
              (configure_workload_log dummy_with_required_relation
                 (related_world true true {["active" := "True"]}))
              (configure_workload_returns _ _
                 (configure_workload_completes dummy_with_required_relation
                    (related_world true true {["active" := "True"]}) Hcreated
                    (fun _ => dummy_provides _ _ _)))
              Hactive)
    as (w2 & log2 & Hrun & _ & _ & Hleader & _).
  exists w2, log2. split; [exact Hrun|]. now apply Hleader.
Defined.
